(** * eac2json: the cursor, the extractors and the ledger builder

    A shallow embedding of [eac2json.go] (the snapshot with [ChildText],
    [more1] and [coreKeys]) and the properties of its specification that
    concern the cursor, the "more details" extractors and the per-Action
    ledger builder.  The extractors of the earlier snapshot in the same
    file are embedded in the module [Earlier] and compared with them. *)

From Stdlib Require Import Ascii String.
From stdpp Require Import base option list sorting strings gmap.

Set Warnings "-register-all,-clear-no-such-hyp".

(** ** Outcomes of a run

    [log.Fatal] and [log.Fatalf] print a message and exit with status 1; a
    Go runtime panic (nil dereference, index out of range, write to a nil
    map) exits with status 2.  Neither writes anything to standard output.
    [Timeout] is the exhaustion of the fuel that bounds the loops of the
    model; the Go program has no such outcome. *)

Inductive Failure :=
  | FatalErr (e : string)          (* log.Fatal(err) *)
  | NoHistory                      (* log.Fatal("no history") *)
  | BadTableNode                   (* log.Fatalf("bad table node ...") *)
  | NoHeader (e : string)          (* log.Fatalf("no header: %s", err) *)
  | BadRow (e : string)            (* log.Fatalf("bad row: %s", err) *)
  | ExpectedOneRow (got : nat)     (* log.Fatalf("Expected one row; got %d") *)
  | EmptyMoreDetails               (* log.Fatalf("empty more details ...") *)
  | UnknownRowType (a : string).   (* log.Fatalf("unknown row type ...") *)

Inductive RuntimePanic :=
  | NilDereference
  | IndexOutOfRange (i len : nat)
  | NilMapAssignment.

Inductive result (A : Type) :=
  | Done (a : A)
  | Fatal (f : Failure)
  | Panic (p : RuntimePanic)
  | Timeout.

Arguments Done {A} a.
Arguments Fatal {A} f.
Arguments Panic {A} p.
Arguments Timeout {A}.

Global Instance result_ret : MRet result := fun A a => Done a.

Global Instance result_bind : MBind result := fun A B k r =>
  match r with
  | Done a => k a
  | Fatal f => Fatal f
  | Panic p => Panic p
  | Timeout => Timeout
  end.

(** The process exit status of an outcome, and what reaches standard
    output. *)
Definition exit_status {A} (r : result A) : option nat :=
  match r with
  | Done _ => Some 0
  | Fatal _ => Some 1
  | Panic _ => Some 2
  | Timeout => None
  end.

Definition stdout {A} (r : result A) : option A :=
  match r with Done a => Some a | _ => None end.

Definition aborts {A} (r : result A) : Prop :=
  (exists f, r = Fatal f) \/ (exists p, r = Panic p).

(** ** strings.TrimSpace

    The Go library function, on the UTF-8 bytes of the string: it removes
    leading and trailing runes with the Unicode White_Space property.  The
    six ASCII ones are one byte each; the others are listed by their
    encodings.  No property below depends on what is trimmed. *)

Definition asciiSpace (c : ascii) : bool :=
  let n := nat_of_ascii c in
  (n =? 9)%nat || (n =? 10)%nat || (n =? 11)%nat || (n =? 12)%nat
  || (n =? 13)%nat || (n =? 32)%nat.

Definition wideSpaces : list (list nat) :=
  [ [194; 133]; [194; 160]; [225; 154; 128];
    [226; 128; 128]; [226; 128; 129]; [226; 128; 130]; [226; 128; 131];
    [226; 128; 132]; [226; 128; 133]; [226; 128; 134]; [226; 128; 135];
    [226; 128; 136]; [226; 128; 137]; [226; 128; 138];
    [226; 128; 168]; [226; 128; 169]; [226; 128; 175];
    [226; 129; 159]; [227; 128; 128] ].

Fixpoint dropPrefix (w : list nat) (s : list ascii) : option (list ascii) :=
  match w, s with
  | [], _ => Some s
  | b :: w', c :: s' => if (nat_of_ascii c =? b)%nat then dropPrefix w' s' else None
  | _ :: _, [] => None
  end.

Fixpoint firstSome {A} (l : list (option A)) : option A :=
  match l with
  | [] => None
  | Some a :: _ => Some a
  | None :: l' => firstSome l'
  end.

(** One white-space rune removed from the front of [s], read forwards
    ([rev_enc = false]) or from the back of the reversed string. *)
Definition dropSpace (rev_enc : bool) (s : list ascii) : option (list ascii) :=
  match s with
  | [] => None
  | c :: s' =>
      if asciiSpace c then Some s'
      else firstSome
             (map (fun w => dropPrefix (if rev_enc then rev w else w) s)
                  wideSpaces)
  end.

Fixpoint trimFront (fuel : nat) (rev_enc : bool) (s : list ascii) : list ascii :=
  match fuel with
  | 0 => s
  | S fuel' =>
      match dropSpace rev_enc s with
      | Some s' => trimFront fuel' rev_enc s'
      | None => s
      end
  end.

Definition TrimSpace (s : string) : string :=
  let b := list_ascii_of_string s in
  let l := trimFront (length b) false b in
  let r := trimFront (length l) true (rev l) in
  string_of_list_ascii (rev r).

(** ** The parsed document

    [html.Node] of golang.org/x/net/html, as far as the program reads it:
    [Type], [Data], [Attr], [FirstChild] and [NextSibling].  The document is
    a tree, so a non-nil [*html.Node] is the node together with the siblings
    that follow it, and nil is the empty list: [FirstChild] is the list of
    children and [NextSibling] the tail. *)

Inductive NodeType :=
  | ErrorNode | TextNode | DocumentNode | ElementNode | CommentNode
  | DoctypeNode.

Global Instance NodeType_eq_dec : EqDecision NodeType.
Proof. solve_decision. Defined.

Record Attribute := mkAttr { Key : string; Val : string }.

Inductive HtmlNode :=
  mkHtml (Type_ : NodeType) (Data_ : string) (Attr_ : list Attribute)
         (children : list HtmlNode).

Definition NType (x : HtmlNode) : NodeType :=
  match x with mkHtml t _ _ _ => t end.
Definition Data (x : HtmlNode) : string :=
  match x with mkHtml _ d _ _ => d end.
Definition Attr (x : HtmlNode) : list Attribute :=
  match x with mkHtml _ _ a _ => a end.
Definition Children (x : HtmlNode) : list HtmlNode :=
  match x with mkHtml _ _ _ c => c end.

(** [*html.Node] *)
Abbreviation ptr := (list HtmlNode).

Definition FirstChild (c : ptr) : result ptr :=
  match c with
  | [] => Panic NilDereference
  | x :: _ => Done (Children x)
  end.

Definition NextSibling (c : ptr) : ptr := tail c.

Definition isElement (tag : string) (x : HtmlNode) : bool :=
  bool_decide (NType x = ElementNode) && String.eqb (Data x) tag.

(** ** The cursor: [type Node struct] *)

Inductive Node :=
  mkNode (node : ptr) (next : ptr) (err : option string)
         (stack : option Node).

Definition node (n : Node) : ptr :=
  match n with mkNode c _ _ _ => c end.
Definition next (n : Node) : ptr :=
  match n with mkNode _ x _ _ => x end.
Definition err (n : Node) : option string :=
  match n with mkNode _ _ e _ => e end.
Definition stack (n : Node) : option Node :=
  match n with mkNode _ _ _ s => s end.

Definition Ok (n : Node) : bool :=
  match err n with None => true | Some _ => false end.

(** The loop of [Sibling]: the first element with the tag at or after [c]. *)
Fixpoint scan (tag : string) (c : ptr) : option ptr :=
  match c with
  | [] => None
  | x :: rest => if isElement tag x then Some c else scan tag rest
  end.

Definition Sibling (tag : string) (n : Node) : Node :=
  match err n with
  | Some _ => n
  | None =>
      match scan tag (next n) with
      | Some c => mkNode c (NextSibling c) None (stack n)
      | None =>
          mkNode (node n) (next n) (Some ("no sibling tag " +:+ tag)) (stack n)
      end
  end.

Definition Child (tag : string) (n : Node) : result Node :=
  match err n with
  | Some _ => Done n
  | None =>
      c ← FirstChild (node n);
      Done (Sibling tag (mkNode c c None (stack n)))
  end.

Fixpoint childText (x : HtmlNode) : string :=
  match x with
  | mkHtml t d _ cs =>
      if bool_decide (t = TextNode) then d
      else match cs with
           | [] => ""
           | y :: _ => childText y
           end
  end.

Definition ChildText (n : Node) : string :=
  match err n with
  | Some _ => ""
  | None => match node n with [] => "" | x :: _ => childText x end
  end.

Fixpoint siblingText (c : ptr) : string :=
  match c with
  | [] => ""
  | x :: rest => if bool_decide (NType x = TextNode) then Data x
                 else siblingText rest
  end.

Definition Text (n : Node) : string :=
  match err n with
  | Some _ => ""
  | None => siblingText (node n)
  end.

Definition Push (n : Node) : Node :=
  mkNode (node n) (next n) (err n) (Some n).

Definition Pop (n : Node) : result Node :=
  match stack n with
  | Some m => Done m
  | None => Panic NilDereference
  end.

Definition Err (n : Node) : option string := err n.

(** ** The ledger: [type Ledger struct]

    An entry is a [map[string]string]; the zero [Ledger] holds a nil slice
    and a nil map ([e = None]), whose length is 0 and which cannot be
    written. *)

Abbreviation Entry := (gmap string string).

Record Ledger := mkLedger { entries : list Entry; e : option Entry }.

Definition zeroLedger : Ledger := mkLedger [] None.

Definition Next (l : Ledger) : Ledger :=
  mkLedger
    (match e l with
     | Some m => if bool_decide (0 < size m) then entries l ++ [m]
                 else entries l
     | None => entries l
     end)
    (Some ∅).

Definition Write (k v : string) (l : Ledger) : result Ledger :=
  match e l with
  | Some m => Done (mkLedger (entries l) (Some (<[k:=v]> m)))
  | None => Panic NilMapAssignment
  end.

(** ** findHistory

    Called on a non-nil pointer: the node [x] and the siblings [rest] after
    it.  The answer is a pointer, so it keeps the siblings of the anchor. *)

Definition isHistory (x : HtmlNode) : bool :=
  isElement "a" x
  && existsb (fun a => String.eqb (Key a) "name" && String.eqb (Val a) "History")
             (Attr x).

Fixpoint findHistory (x : HtmlNode) (rest : ptr) : option ptr :=
  if isHistory x then Some (x :: rest)
  else
    match x with
    | mkHtml _ _ _ cs =>
        (fix children (c : ptr) : option ptr :=
           match c with
           | [] => None
           | y :: c' =>
               match findHistory y c' with
               | Some r => Some r
               | None => children c'
               end
           end) cs
    end.

(** ** Loops over siblings

    [for init; n.Ok(); n.Sibling(tag) { body }].  Every iteration ends with
    a [Sibling] call that either fails or moves the resume pointer forward,
    so one more than the number of nodes after the cursor bounds the number
    of iterations. *)

Fixpoint forOk {S : Type} (fuel : nat) (tag : string)
    (body : Node -> S -> result (Node * S)) (n : Node) (s : S)
    : result (Node * S) :=
  if Ok n then
    match fuel with
    | 0 => Timeout
    | S fuel' =>
        '(n1, s1) ← body n s;
        forOk fuel' tag body (Sibling tag n1) s1
    end
  else Done (n, s).

Definition fuelOf (n : Node) : nat := S (length (next n)).

(** ** row: a regular data row *)

Fixpoint rowLoop (fuel : nat) (n : Node) (values : list string)
    : result (Node * (list string + string)) :=
  if Ok n then
    match fuel with
    | 0 => Timeout
    | S fuel' =>
        let n := Push n in
        n ← Child "label" n;
        let val := TrimSpace (ChildText n) in
        match Err n with
        | Some err =>
            n ← Pop n;
            Done (n, inr err)
        | None =>
            n ← Pop n;
            rowLoop fuel' (Sibling "td" n) (values ++ [val])
        end
    end
  else Done (n, inl values).

Definition row (n : Node) : result (Node * (list string + string)) :=
  let n := Push n in
  n ← Child "td" n;
  '(n, r) ← rowLoop (fuelOf n) n [];
  n ← Pop n;
  Done (n, r).

(** ** more: the tabular "more details" rows *)

Definition headerCell (n : Node) (headers : list string)
    : result (Node * list string) :=
  let n := Push n in
  n ← Child "b" n;
  let headers := headers ++ [TrimSpace (ChildText n)] in
  n ← Pop n;
  Done (n, headers).

(** [for len(headers) > 0 && headers[len(headers)-1] == "" {...}] *)
Fixpoint stripLoop (fuel : nat) (headers : list string) : list string :=
  match fuel with
  | 0 => headers
  | S fuel' =>
      match last headers with
      | Some h => if String.eqb h "" then stripLoop fuel' (removelast headers)
                  else headers
      | None => headers
      end
  end.

Definition stripHeaders (headers : list string) : list string :=
  stripLoop (length headers) headers.

(** [for i = 0; n.Ok() && i < len(headers); i++ {...}], with [hs] the
    headers from index [i] on. *)
Fixpoint cellLoop (hs : list string) (n : Node) (m : Entry) (i : nat)
    : Node * Entry * nat :=
  match hs with
  | [] => (n, m, i)
  | h :: hs' =>
      if Ok n then
        cellLoop hs' (Sibling "td" n) (<[h:=TrimSpace (ChildText n)]> m) (S i)
      else (n, m, i)
  end.

Definition moreRow (headers : list string) (n : Node) (entries : list Entry)
    : result (Node * list Entry) :=
  let n := Push n in
  let m : Entry := ∅ in
  n ← Child "td" n;
  let '(n, m, i) := cellLoop headers n m 0 in
  let entries := if (i =? length headers)%nat then entries ++ [m] else entries in
  n ← Pop n;
  Done (n, entries).

(** The fixed descent shared by [more] and [more1]. *)
Definition detailsTable (n : Node) : result Node :=
  n ← Child "td" n;
  n ← Child "div" n;
  n ← Child "div" n;
  n ← Child "table" n;
  let n := Sibling "table" n in
  Child "tbody" n.

Definition more (n : Node) : result (Node * (list Entry + string)) :=
  let n := Push n in
  n ← detailsTable n;
  n ← Child "tr" n;
  match Err n with
  | Some err =>
      n ← Pop n;
      Done (n, inr err)
  | None =>
      let n := Push n in
      n ← Child "td" n;
      '(n, headers) ← forOk (fuelOf n) "td" headerCell n [];
      n ← Pop n;
      let headers := stripHeaders headers in
      let n := Sibling "tr" n in
      '(n, entries) ← forOk (fuelOf n) "tr" (moreRow headers) n [];
      n ← Pop n;
      Done (n, inl entries)
  end.

(** ** more1: the key-value "more details" panel *)

Definition more1Cell (n : Node) (entries : Entry) : result (Node * Entry) :=
  let key := TrimSpace (ChildText n) in
  let n := Push n in
  n ← Child "b" n;
  let value := TrimSpace (Text n) in
  n ← Pop n;
  Done (n, if String.eqb key "" then entries else <[key:=value]> entries).

Definition more1Row (n : Node) (entries : Entry) : result (Node * Entry) :=
  let n := Push n in
  n ← Child "td" n;
  '(n, entries) ← forOk (fuelOf n) "td" more1Cell n entries;
  n ← Pop n;
  Done (n, entries).

Definition more1 (n : Node) : result (Node * (Entry + string)) :=
  let n := Push n in
  n ← detailsTable n;
  match Err n with
  | Some err =>
      n ← Pop n;
      Done (n, inr err)
  | None =>
      n ← Child "tr" n;
      '(n, entries) ← forOk (fuelOf n) "tr" more1Row n ∅;
      n ← Pop n;
      Done (n, inl entries)
  end.

(** ** main: the row classifier and ledger builder *)

Definition coreKeys : list string :=
  ["Date"; "Description"; "Action"; "Symbol"].

(** [header[k]]: a missing key reads as the zero value. *)
Definition headerIndex (header : gmap string nat) (k : string) : nat :=
  default 0 (header !! k).

(** [values[i]] *)
Definition index (values : list string) (i : nat) : result string :=
  match values !! i with
  | Some v => Done v
  | None => Panic (IndexOutOfRange i (length values))
  end.

(** [for i := range headerVals { header[headerVals[i]] = i }], with [vals]
    the labels from index [i] on. *)
Fixpoint headerLoop (i : nat) (vals : list string) (header : gmap string nat)
    : gmap string nat :=
  match vals with
  | [] => header
  | v :: vals' => headerLoop (S i) vals' (<[v:=i]> header)
  end.

Definition makeHeader (headerVals : list string) : gmap string nat :=
  headerLoop 0 headerVals ∅.

(** [for k, i := range header { l.Write(k, values[i]) }], over the
    columns in some order: Go leaves the order of a map's keys open, and
    the ledger written does not depend on it ([writeRow_header] below). *)
Fixpoint writeRow (cols : list (string * nat)) (values : list string)
    (l : Ledger) : result Ledger :=
  match cols with
  | [] => Done l
  | (k, i) :: cols' =>
      v ← index values i;
      l ← Write k v l;
      writeRow cols' values l
  end.

(** [for k, v := range entries { l.Write(k, v) }] *)
Fixpoint writeAll (kvs : list (string * string)) (l : Ledger) : result Ledger :=
  match kvs with
  | [] => Done l
  | (k, v) :: kvs' =>
      l ← Write k v l;
      writeAll kvs' l
  end.

(** [for _, k := range coreKeys { l.Write(k, values[header[k]]) }] *)
Fixpoint writeCore (keys : list string) (header : gmap string nat)
    (values : list string) (l : Ledger) : result Ledger :=
  match keys with
  | [] => Done l
  | k :: keys' =>
      v ← index values (headerIndex header k);
      l ← Write k v l;
      writeCore keys' header values l
  end.

(** [for _, e := range entries {...}] of the fan-out branch. *)
Fixpoint fanOut (header : gmap string nat) (values : list string)
    (entries : list Entry) (l : Ledger) : result Ledger :=
  match entries with
  | [] => Done l
  | e :: entries' =>
      let l := Next l in
      l ← writeCore coreKeys header values l;
      l ← writeAll (map_to_list e) l;
      fanOut header values entries' l
  end.

(** [case "Lapse":] *)
Definition caseLapse (header : gmap string nat) (values : list string)
    (n : Node) (l : Ledger) : result (Node * Ledger) :=
  let l := Next l in
  l ← writeRow (map_to_list header) values l;
  let n := Sibling "tr" n in
  '(n, r) ← more1 n;
  match r with
  | inr err => Fatal (FatalErr err)
  | inl entries =>
      l ← writeAll (map_to_list entries) l;
      Done (n, l)
  end.

(** [case "Deposit", "Forced Quick Sell":] *)
Definition caseDeposit (header : gmap string nat) (values : list string)
    (n : Node) (l : Ledger) : result (Node * Ledger) :=
  let l := Next l in
  l ← writeRow (map_to_list header) values l;
  let n := Sibling "tr" n in
  '(n, r) ← more n;
  match r with
  | inr err => Fatal (FatalErr err)
  | inl entries =>
      if negb (length entries =? 1)%nat
      then Fatal (ExpectedOneRow (length entries))
      else
        match entries !! 0 with
        | Some e0 =>
            l ← writeAll (map_to_list e0) l;
            Done (n, l)
        | None => Panic (IndexOutOfRange 0 (length entries))
        end
  end.

(** [case "Exer and Hold", "Sale":] *)
Definition caseExercise (header : gmap string nat) (values : list string)
    (n : Node) (l : Ledger) : result (Node * Ledger) :=
  let n := Sibling "tr" n in
  '(n, r) ← more n;
  match r with
  | inr err => Fatal (FatalErr err)
  | inl entries =>
      if (length entries =? 0)%nat then Fatal EmptyMoreDetails
      else
        l ← fanOut header values entries l;
        Done (n, l)
  end.

(** The [switch], for the Action value [action] of a row whose cells are
    [values]. *)
Definition dispatch (header : gmap string nat) (values : list string)
    (action : string) (n : Node) (l : Ledger) : result (Node * Ledger) :=
  if String.eqb action "Lapse" then caseLapse header values n l
  else if String.eqb action "Deposit" || String.eqb action "Forced Quick Sell"
  then caseDeposit header values n l
  else if String.eqb action "Exer and Hold" || String.eqb action "Sale"
  then caseExercise header values n l
  else if String.eqb action "Journal" then Done (Sibling "tr" n, l)
  else if String.eqb action "Forced Disbursement" then Done (n, l)
  else Fatal (UnknownRowType action).

(** [switch values[header["Action"]] {...}] *)
Definition classify (header : gmap string nat) (values : list string)
    (n : Node) (l : Ledger) : result (Node * Ledger) :=
  action ← index values (headerIndex header "Action");
  dispatch header values action n l.

(** The body of the loop over the top-level rows. *)
Definition step (header : gmap string nat) (n : Node) (l : Ledger)
    : result (Node * Ledger) :=
  '(n, r) ← row n;
  match r with
  | inr err => Fatal (BadRow err)
  | inl values => classify header values n l
  end.

(** [for n.Sibling("tr"); n.Ok(); n.Sibling("tr") {...}], from the cursor
    the initial [Sibling] call has produced. *)
Definition rows (header : gmap string nat) (n : Node) (l : Ledger)
    : result (Node * Ledger) :=
  forOk (fuelOf n) "tr" (step header) n l.

(** From the History anchor to the table body, the shape check on it, and
    the first row. *)
Definition tableBody (root : ptr) : result Node :=
  let n := mkNode root root None None in
  n ← Child "table" n;
  n ← Child "tbody" n;
  n ← Child "tr" n;
  let n := Sibling "tr" n in
  n ← Child "td" n;
  n ← Child "table" n;
  n ← Child "tbody" n;
  match node n with
  | [] => Panic NilDereference
  | x :: _ =>
      if negb (isElement "tbody" x) then Fatal BadTableNode
      else
        n ← Child "tr" n;
        match Err n with
        | Some err => Fatal (FatalErr err)
        | None => Done n
        end
  end.

(** The same descent in the repository's other snapshot of [main], which
    consults [n.Ok()] before the shape check and calls [row] right after
    the last [Child]. *)
Definition tableBodyChecked (root : ptr) : result Node :=
  let n := mkNode root root None None in
  n ← Child "table" n;
  n ← Child "tbody" n;
  n ← Child "tr" n;
  let n := Sibling "tr" n in
  n ← Child "td" n;
  n ← Child "table" n;
  n ← Child "tbody" n;
  match Err n with
  | Some err => Fatal (FatalErr err)
  | None =>
      match node n with
      | [] => Panic NilDereference
      | x :: _ =>
          if negb (isElement "tbody" x) then Fatal BadTableNode
          else Child "tr" n
      end
  end.

(** [main] up to the loop: the header mapping and the cursor on the header
    row. *)
Definition start (doc : HtmlNode) : result (gmap string nat * Node) :=
  match findHistory doc [] with
  | None => Fatal NoHistory
  | Some root =>
      n ← tableBody root;
      '(n, r) ← row n;
      match r with
      | inr err => Fatal (NoHeader err)
      | inl headerVals => Done (makeHeader headerVals, n)
      end
  end.

(** [main] up to the end of the loop: the ledger it has built. *)
Definition buildLedger (doc : HtmlNode) : result Ledger :=
  '(header, n) ← start doc;
  let l := zeroLedger in
  '(_, l) ← rows header (Sibling "tr" n) l;
  Done l.

(** [main]: what [enc.Encode(l.entries)] writes. *)
Definition main (doc : HtmlNode) : result (list Entry) :=
  l ← buildLedger doc;
  Done (entries l).

(** ** The earlier snapshot

    The source file also holds an earlier snapshot of the program, in which
    [row] returns a flag instead of an error, [more] takes the ledger and
    writes one sub-row into it cell by cell, and [main] looks the Action
    column up in the header row.  The cursor, the ledger and
    [findHistory] are the same in both snapshots, and the descent to the
    table body is [tableBodyChecked] above.  Modelled here: [Text],
    [Error], [row], [more], and of [main] the part before the loop and the
    case of the rows whose details are read. *)

Module Earlier.

(** [Text] follows the first-child chain, as [ChildText] does in the later
    snapshot. *)
Definition Text (n : Node) : string :=
  match err n with
  | Some _ => ""
  | None => match node n with [] => "" | x :: _ => childText x end
  end.

Definition Error (n : Node) : option string := err n.

Fixpoint rowLoop (fuel : nat) (n : Node) (values : list string)
    : result (Node * (bool * list string)) :=
  if Ok n then
    match fuel with
    | 0 => Timeout
    | S fuel' =>
        let n := Push n in
        n ← Child "label" n;
        let val := TrimSpace (Text n) in
        if negb (Ok n) then
          n ← Pop n;
          Done (n, (false, []))
        else
          n ← Pop n;
          rowLoop fuel' (Sibling "td" n) (values ++ [val])
    end
  else Done (n, (true, values)).

Definition row (n : Node) : result (Node * (bool * list string)) :=
  let n := Push n in
  n ← Child "td" n;
  '(n, r) ← rowLoop (fuelOf n) n [];
  n ← Pop n;
  Done (n, r).

Definition headerCell (n : Node) (headers : list string)
    : result (Node * list string) :=
  let n := Push n in
  n ← Child "b" n;
  let headers := headers ++ [TrimSpace (Text n)] in
  n ← Pop n;
  Done (n, headers).

(** [l.Write(headers[i], strings.TrimSpace(n.Text())); i++] *)
Definition writeCell (headers : list string) (n : Node) (s : Ledger * nat)
    : result (Node * (Ledger * nat)) :=
  let '(l, i) := s in
  h ← index headers i;
  l ← Write h (TrimSpace (Text n)) l;
  Done (n, (l, S i)).

Definition more (n : Node) (l : Ledger)
    : result (Node * Ledger * option string) :=
  let n := Push n in
  n ← detailsTable n;
  match Error n with
  | Some err =>
      n ← Pop n;
      Done (n, l, Some err)
  | None =>
      n ← Child "tr" n;
      let n := Push n in
      n ← Child "td" n;
      '(n, headers) ← forOk (fuelOf n) "td" headerCell n [];
      n ← Pop n;
      let n := Sibling "tr" n in
      n ← Child "td" n;
      '(n, s) ← forOk (fuelOf n) "td" (writeCell headers) n (l, 0);
      n ← Pop n;
      Done (n, s.1, None)
  end.

(** [action := -1; for i := range header { if header[i] == "Action"
    { action = i } }], with [header] the labels from index [i] on. *)
Fixpoint actionLoop (i : nat) (header : list string) (action : Z) : Z :=
  match header with
  | [] => action
  | h :: header' =>
      actionLoop (S i) header'
        (if String.eqb h "Action" then Z.of_nat i else action)
  end.

(** The message of [log.Fatal("\"Action\" header not found")]. *)
Definition noActionHeader : string :=
  String "034" ("Action" +:+ String "034" " header not found").

(** [main] up to the loop: the header row, the index of its Action column
    and the cursor on the header row. *)
Definition start (doc : HtmlNode) : result (list string * Z * Node) :=
  match findHistory doc [] with
  | None => Fatal NoHistory
  | Some root =>
      n ← tableBodyChecked root;
      '(n, r) ← row n;
      if negb r.1 then Fatal (FatalErr "Found no header")
      else
        let header := r.2 in
        let action := actionLoop 0 header (-1) in
        if (action <? 0)%Z then Fatal (FatalErr noActionHeader)
        else Done (header, action, n)
  end.

(** [for i := range header { l.Write(header[i], values[i]) }], with
    [header] the labels from index [i] on. *)
Fixpoint writeHeader (i : nat) (header values : list string) (l : Ledger)
    : result Ledger :=
  match header with
  | [] => Done l
  | h :: header' =>
      v ← index values i;
      l ← Write h v l;
      writeHeader (S i) header' values l
  end.

(** [case "Deposit", "Forced Quick Sell", "Exer and Hold":] *)
Definition caseDeposit (header values : list string) (n : Node) (l : Ledger)
    : result (Node * Ledger) :=
  let l := Next l in
  l ← writeHeader 0 header values l;
  let n := Sibling "tr" n in
  '(n, l, err) ← more n l;
  match err with
  | Some err => Fatal (FatalErr err)
  | None => Done (n, l)
  end.

End Earlier.

(** ** Sample documents

    Trees of the shape [html.Parse] builds for a saved history page. *)

Definition el (tag : string) (kids : list HtmlNode) : HtmlNode :=
  mkHtml ElementNode tag [] kids.

Definition txt (s : string) : HtmlNode := mkHtml TextNode s [] [].

(** [<td><label>s</label></td>] and a row of such cells. *)
Definition cell (s : string) : HtmlNode := el "td" [el "label" [txt s]].

Definition dataRow (vals : list string) : HtmlNode := el "tr" (map cell vals).

(** A "more details" row: the second table of the inner [div] holds a row
    of bold headers and then the sub-rows. *)
Definition detailsRow (headers : list string) (rows : list (list string))
    : HtmlNode :=
  el "tr"
    [el "td"
       [el "div"
          [el "div"
             [el "table" [];
              el "table"
                [el "tbody"
                   (el "tr" (map (fun h => el "td" [el "b" [txt h]]) headers)
                    :: map (fun r => el "tr" (map (fun v => el "td" [txt v]) r))
                         rows)]]]]].

Definition anchor (kids : list HtmlNode) : HtmlNode :=
  mkHtml ElementNode "a" [mkAttr "name" "History"] kids.

Definition page (historyKids : list HtmlNode) : HtmlNode :=
  mkHtml DocumentNode "" []
    [el "html" [el "head" []; el "body" [anchor historyKids]]].

Definition historyPage (rows : list HtmlNode) : HtmlNode :=
  page
    [el "table"
       [el "tbody"
          [el "tr" [];
           el "tr" [el "td" [el "table" [el "tbody" rows]]]]]].

Definition stdHeader : HtmlNode :=
  dataRow ["Date"; "Description"; "Action"; "Symbol"].

(** A page with one Deposit row and its details. *)
Definition depositRows : list HtmlNode :=
  [dataRow ["01/02/2015"; "RSU"; "Deposit"; "GOOG"];
   detailsRow ["Shares"; "Price"; ""] [["10"; "5.00"; "x"]]].

Definition depositPage : HtmlNode := historyPage (stdHeader :: depositRows).

Definition depositEntry : Entry :=
  list_to_map
    [("Date", "01/02/2015"); ("Description", "RSU"); ("Action", "Deposit");
     ("Symbol", "GOOG"); ("Shares", "10"); ("Price", "5.00")].

(** A page whose History anchor has no children. *)
Definition emptyHistoryPage : HtmlNode := page [].

(** A page with a Sale row of three cells under a header of four. *)
Definition raggedSaleRows : list HtmlNode :=
  [dataRow ["01/02/2015"; "ISO"; "Sale"]; detailsRow ["Shares"] [["1"]]].

Definition raggedSalePage : HtmlNode :=
  historyPage (stdHeader :: raggedSaleRows).

Definition stdHeaderMap : gmap string nat :=
  makeHeader ["Date"; "Description"; "Action"; "Symbol"].

(** The cursor the failed descent from a childless anchor leaves. *)
Definition failedCursor : Node :=
  mkNode [] [] (Some "no sibling tag table") None.

(** An Exer and Hold row with three detail sub-rows, one of them short. *)
Definition exerciseRows : list HtmlNode :=
  [dataRow ["01/02/2015"; "ISO"; "Exer and Hold"; "GOOG"];
   detailsRow ["Shares"; "Price"; ""; ""]
     [["10"; "5.00"; "x"]; ["3"]; ["7"; "6.00"]]].

Definition exerciseCore : Entry :=
  list_to_map
    [("Date", "01/02/2015"); ("Description", "ISO");
     ("Action", "Exer and Hold"); ("Symbol", "GOOG")].

Definition lot1 : Entry := list_to_map [("Shares", "10"); ("Price", "5.00")].
Definition lot2 : Entry := list_to_map [("Shares", "7"); ("Price", "6.00")].

(** A Sale row whose details table has no sub-row. *)
Definition emptySaleRows : list HtmlNode :=
  [dataRow ["01/02/2015"; "ISO"; "Sale"; "GOOG"]; detailsRow ["Shares"] []].

(** A Deposit row with two detail sub-rows. *)
Definition twoLotDepositRows : list HtmlNode :=
  [dataRow ["01/02/2015"; "RSU"; "Deposit"; "GOOG"];
   detailsRow ["Shares"] [["10"]; ["20"]]].

(** A Forced Disbursement row followed by a row of an unknown Action. *)
Definition bogusRows : list HtmlNode :=
  [dataRow ["01/02/2015"; "x"; "Forced Disbursement"; "GOOG"];
   dataRow ["01/03/2015"; "y"; "Bogus"; "GOOG"]].

Definition bogusPage : HtmlNode := historyPage (stdHeader :: bogusRows).

(** A Lapse row and its details panel: each cell holds a key text, a [b]
    element and the value text after it. *)
Definition panelRowOf (kvs : list (string * string)) : HtmlNode :=
  el "tr" (map (fun kv => el "td" [txt kv.1; el "b" []; txt kv.2]) kvs).

Definition panelDetailsRow (rows : list HtmlNode) : HtmlNode :=
  el "tr"
    [el "td"
       [el "div" [el "div" [el "table" []; el "table" [el "tbody" rows]]]]].

Definition lapseRows : list HtmlNode :=
  [dataRow ["01/02/2015"; "RSU"; "Lapse"; "GOOG"];
   panelDetailsRow
     [panelRowOf [("Shares Lapsed", " 100 "); ("", "x")];
      panelRowOf [("Net Shares Deposited", "60")]]].

Definition lapsePanel : Entry :=
  list_to_map [("Shares Lapsed", "100"); ("Net Shares Deposited", "60")].

(** A details row whose cell has no [div]. *)
Definition brokenDetailsRows : list HtmlNode :=
  [dataRow ["01/02/2015"; "ISO"; "Sale"; "GOOG"]; el "tr" [el "td" []]].

(** A page with an Exer and Hold row of two lots, a Deposit row and a
    Forced Disbursement row. *)
Definition mixedRows : list HtmlNode :=
  exerciseRows ++ depositRows
  ++ [dataRow ["01/05/2015"; "x"; "Forced Disbursement"; "GOOG"]].

Definition mixedPage : HtmlNode := historyPage (stdHeader :: mixedRows).

Definition afterExercise : Ledger :=
  mkLedger [lot1 ∪ exerciseCore] (Some (lot2 ∪ exerciseCore)).

(** A Sale row and a Journal row, each the last row of its table. *)
Definition lastSaleRows : list HtmlNode :=
  [dataRow ["01/02/2015"; "ISO"; "Sale"; "GOOG"]].

Definition lastJournalRows : list HtmlNode :=
  [dataRow ["01/02/2015"; "x"; "Journal"; "GOOG"]].

(** A Journal row followed by a row of an unknown action, then a Forced
    Disbursement row. *)
Definition journalRows : list HtmlNode :=
  [dataRow ["01/02/2015"; "x"; "Journal"; "GOOG"];
   dataRow ["01/03/2015"; "y"; "Bogus"; "GOOG"];
   dataRow ["01/04/2015"; "z"; "Forced Disbursement"; "GOOG"]].

Definition journalPage : HtmlNode := historyPage (stdHeader :: journalRows).

(** ** Notions used to state the properties *)

(** A cursor that can be navigated: unless it holds an error it points at a
    node, and so does every checkpoint saved below it.  The cursor [main]
    creates is one, and every operation keeps it one. *)
Fixpoint wf (n : Node) : Prop :=
  match n with
  | mkNode c _ e s =>
      (e = None -> c <> [])
      /\ match s with Some m => wf m | None => True end
  end.

(** The number of checkpoints saved below the cursor. *)
Fixpoint depth (n : Node) : nat :=
  match n with
  | mkNode _ _ _ s => match s with Some m => S (depth m) | None => 0 end
  end.

(** All elements with the tag at or after [c], each as a pointer. *)
Fixpoint matches (tag : string) (c : ptr) : list ptr :=
  match c with
  | [] => []
  | x :: rest =>
      if isElement tag x then c :: matches tag rest else matches tag rest
  end.

(** The children of the node a pointer points at. *)
Definition kids (c : ptr) : ptr :=
  match c with [] => [] | x :: _ => Children x end.

(** The text [ChildText] finds from a pointer. *)
Definition ptrText (c : ptr) : string :=
  match c with [] => "" | x :: _ => childText x end.

(** The position of a pointer among the siblings [sibs] it is a suffix of:
    document order. *)
Definition position (sibs c : ptr) : nat := length sibs - length c.

(** The cursor states after each of a sequence of [Sibling] calls. *)
Fixpoint siblingCalls (tags : list string) (n : Node) : list Node :=
  match tags with
  | [] => []
  | t :: tags' => let n1 := Sibling t n in n1 :: siblingCalls tags' n1
  end.

(** Cursor operations as data, and sequences of them. *)
Inductive op :=
  | OpChild (tag : string)
  | OpSibling (tag : string)
  | OpPush
  | OpPop.

Definition apply (o : op) (n : Node) : result Node :=
  match o with
  | OpChild tag => Child tag n
  | OpSibling tag => Done (Sibling tag n)
  | OpPush => Done (Push n)
  | OpPop => Pop n
  end.

Fixpoint run (ops : list op) (n : Node) : result Node :=
  match ops with
  | [] => Done n
  | o :: ops' => n1 ← apply o n; run ops' n1
  end.

Definition isNav (o : op) : bool :=
  match o with OpChild _ | OpSibling _ => true | _ => false end.

(** Sequences in which every [Push] is closed by a [Pop]. *)
Inductive balanced : list op -> Prop :=
  | balanced_nil : balanced []
  | balanced_nav o ops : isNav o = true -> balanced ops -> balanced (o :: ops)
  | balanced_pair inner ops :
      balanced inner -> balanced ops ->
      balanced (OpPush :: inner ++ OpPop :: ops).

(** The cells a loop over siblings still has to visit: the current node and
    the later elements with the tag, or none once the cursor holds an
    error. *)
Definition cursorCells (tag : string) (n : Node) : list ptr :=
  if Ok n then node n :: matches tag (next n) else [].

(** The label of a header cell of a details table: the text of its first
    [b] child, the empty string when it has none. *)
Definition headerLabel (c : ptr) : string :=
  TrimSpace (match scan "b" (kids c) with Some b => ptrText b | None => "" end).

(** What a sub-row writes for the header list [headers], cell by cell. *)
Definition rowEntry (headers : list string) (cells : list ptr) : Entry :=
  foldl (fun m hc => <[hc.1:=TrimSpace (ptrText hc.2)]> m) ∅ (zip headers cells).

(** The cells of a row, and the mapping a sub-row contributes, if any. *)
Definition rowCells (r : ptr) : list ptr := matches "td" (kids r).

Definition acceptRow (headers : list string) (r : ptr) : option Entry :=
  if decide (length headers <= length (rowCells r))
  then Some (rowEntry headers (rowCells r)) else None.

(** The raw header labels of a details table whose header row is [hdr]. *)
Definition rawHeaders (hdr : ptr) : list string :=
  headerLabel <$> rowCells hdr.

(** The key and value [more1] reads at a cell. *)
Definition panelKey (c : ptr) : string := TrimSpace (ptrText c).

Definition panelValue (c : ptr) : string :=
  TrimSpace (match scan "b" (kids c) with
             | Some b => siblingText b
             | None => ""
             end).

(** The entries a ledger holds, the one in progress included when it is
    not empty: what a final [Next] would leave in [entries]. *)
Definition pending (l : Ledger) : list Entry :=
  match e l with
  | Some m => if bool_decide (0 < size m) then [m] else []
  | None => []
  end.

Definition constructed (l : Ledger) : list Entry := entries l ++ pending l.

(** The fields a row has under the columns of [header]. *)
Definition rowFields (header : gmap string nat) (values : list string) : Entry :=
  omap (fun i => values !! i) header.

(** The four core fields of a row, when it has a cell at each of their
    column indices. *)
Definition coreFields (header : gmap string nat) (values : list string)
    : option Entry :=
  date ← values !! headerIndex header "Date";
  description ← values !! headerIndex header "Description";
  action ← values !! headerIndex header "Action";
  symbol ← values !! headerIndex header "Symbol";
  Some (<["Symbol":=symbol]> (<["Action":=action]>
         (<["Description":=description]> (<["Date":=date]> ∅)))).

(** The Action values the classifier knows. *)
Definition recognized : list string :=
  ["Deposit"; "Forced Quick Sell"; "Lapse"; "Exer and Hold"; "Sale";
   "Journal"; "Forced Disbursement"].

(** The header row [more] reaches from a details row, or the cursor with
    the error of the failed descent. *)
Definition headerRow (n : Node) : result Node :=
  n ← detailsTable (Push n); Child "tr" n.

(** What [row] collects from the cells of a row: the label texts, or the
    error of the first cell without a [label]. *)
Fixpoint rowValues (cells : list ptr) (values : list string)
    : list string + string :=
  match cells with
  | [] => inl values
  | c :: cells' =>
      match scan "label" (kids c) with
      | Some lb => rowValues cells' (values ++ [TrimSpace (ptrText lb)])
      | None => inr "no sibling tag label"
      end
  end.

(** What [more1] writes for one cell, one row and all rows of a panel. *)
Definition panelCell (c : ptr) (entries : Entry) : Entry :=
  if String.eqb (panelKey c) "" then entries
  else <[panelKey c:=panelValue c]> entries.

Definition panelRow (r : ptr) (entries : Entry) : Entry :=
  foldl (fun s c => panelCell c s) entries (rowCells r).

Definition panelEntries (rows : list ptr) : Entry :=
  foldl (fun s r => panelRow r s) ∅ rows.

(** The loop over the rows, started at [x.1] with ledger [x.2], comes to
    the top of an iteration with the cursor and ledger [y]. *)
Inductive reaches (header : gmap string nat)
    : Node * Ledger -> Node * Ledger -> Prop :=
  | reaches_here x : reaches header x x
  | reaches_step n l n1 l1 y :
      Ok n = true -> step header n l = Done (n1, l1) ->
      reaches header (Sibling "tr" n1, l1) y ->
      reaches header (n, l) y.

(** A cursor on the first of the rows [rs], as the loop over the rows has
    it: no checkpoint saved. *)
Definition onRow (rs : ptr) : Node := mkNode rs (tail rs) None None.

(** The cells written for the columns [cols], when every index is in
    range. *)
Definition colFields (cols : list (string * nat)) (values : list string)
    : list (string * string) :=
  omap (fun ki => pair ki.1 <$> values !! ki.2) cols.

(** An iteration of the loop over the rows ends, and leaves the cursor on
    the row it started on or on the next [tr] after it. *)
Definition settles (n : Node) (r : result (Node * Ledger)) : Prop :=
  match r with
  | Done (n1, _) => n1 = n \/ n1 = Sibling "tr" n
  | Timeout => False
  | _ => True
  end.

(** The nodes of a tree in document order. *)
Fixpoint preorder (x : HtmlNode) : list HtmlNode :=
  match x with
  | mkHtml _ _ _ cs =>
      x :: (fix forest (c : ptr) : list HtmlNode :=
              match c with
              | [] => []
              | y :: c' => preorder y ++ forest c'
              end) cs
  end.

(** The text [row] takes from a cell: that of its first [label] child. *)
Definition cellLabel (c : ptr) : string :=
  TrimSpace (match scan "label" (kids c) with
             | Some lb => ptrText lb
             | None => ""
             end).

(** The errors a failed descent of [more] can report. *)
Definition descentErrors : list string :=
  ["no sibling tag td"; "no sibling tag div"; "no sibling tag table";
   "no sibling tag tbody"; "no sibling tag tr"].

(** [j] is the last index at which the label [k] stands in [vals]. *)
Definition lastIndex (vals : list string) (k : string) (j : nat) : Prop :=
  vals !! j = Some k /\ forall q, j < q -> vals !! q <> Some k.

(** Whether a cell has a [label] child. *)
Definition hasLabel (c : ptr) : bool :=
  match scan "label" (kids c) with Some _ => true | None => false end.

(** All the cells of the rows of a panel, in document order. *)
Definition panelCells (rows : list ptr) : list ptr := rows ≫= rowCells.

(** From ledger [l] to ledger [l1] nothing committed is lost or changed:
    [l1] is [l], or all that [l] had constructed stands committed at the
    front of [l1]; and no empty entry comes in. *)
Definition advances (l l1 : Ledger) : Prop :=
  (l1 = l \/ constructed l `prefix_of` entries l1)
  /\ (Forall (fun m : Entry => m <> ∅) (entries l) ->
      Forall (fun m : Entry => m <> ∅) (entries l1)).

(** What the earlier [row] returns where the later one returns [r]. *)
Definition flagged (r : list string + string) : bool * list string :=
  match r with inl values => (true, values) | inr _ => (false, []) end.

(** Of the [tr] rows of a details table body, the earlier [more] takes the
    labels of the first as headers and reads the cells of the second. *)
Definition firstHeaders (trs : list ptr) : list string :=
  default [] (rawHeaders <$> trs !! 0).

Definition firstCells (trs : list ptr) : list ptr :=
  default [] (rowCells <$> trs !! 1).

(** The cell texts written under the headers, position by position, over
    the entry [m]. *)
Definition positional (headers : list string) (cells : list ptr) (m : Entry)
    : Entry :=
  foldl (fun m hc => <[hc.1:=TrimSpace (ptrText hc.2)]> m) m (zip headers cells).

(** A details row whose sub-row has more cells than the header row. *)
Definition wideDetailsRows : list HtmlNode :=
  [detailsRow ["Shares"] [["1"; "2"]]].

(** A page whose header row has no Action label. *)
Definition noActionPage : HtmlNode :=
  historyPage [dataRow ["Date"; "Type"; "Symbol"];
               dataRow ["01/02/2015"; "Sale"; "GOOG"]].

(** The table body the descent of [more] reaches from a details row, or
    the cursor with the error of the failed descent. *)
Definition tableOf (n : Node) : Node :=
  match detailsTable (Push n) with Done tb => tb | _ => n end.

(** The error a cursor holds after a step from one that held [start]: the
    same, or one of [errs] when there was none. *)
Definition errAfter (start : option string) (errs : list string)
    (s : option string) : Prop :=
  s = start \/ (start = None /\ exists e0, s = Some e0 /\ e0 ∈ errs).

(** ** The cursor *)

Ltac rsimpl := cbn [mbind result_bind mret result_ret].

Lemma Sibling_err tag n e0 : err n = Some e0 -> Sibling tag n = n.
Proof. unfold Sibling. by intros ->. Qed.

Lemma Child_err tag n e0 : err n = Some e0 -> Child tag n = Done n.
Proof. unfold Child. by intros ->. Qed.

Lemma scan_matches tag c : scan tag c = head (matches tag c).
Proof. induction c as [|x rest IH]; simpl; [done|]. by destruct (isElement tag x). Qed.

Lemma scan_Some tag c p :
  scan tag c = Some p ->
  exists pre x rest,
    c = pre ++ p /\ p = x :: rest /\ isElement tag x = true
    /\ Forall (fun y => isElement tag y = false) pre.
Proof.
  induction c as [|x rest IH]; simpl; [done|].
  destruct (isElement tag x) eqn:Hx.
  - intros [= <-]. by exists [], x, rest.
  - intros (pre & y & r & -> & -> & Hy & Hpre)%IH.
    exists (x :: pre), y, r. repeat split; auto.
Qed.

Lemma scan_None tag c :
  scan tag c = None -> Forall (fun y => isElement tag y = false) c.
Proof.
  induction c as [|x rest IH]; simpl; [constructor|].
  destruct (isElement tag x) eqn:Hx; [done|]. intros ?. constructor; auto.
Qed.

Lemma matches_scan tag c p :
  scan tag c = Some p -> matches tag c = p :: matches tag (tail p).
Proof.
  induction c as [|x rest IH]; simpl; [done|].
  destruct (isElement tag x) eqn:Hx; [|done].
  by intros [= <-].
Qed.

Lemma matches_scan_None tag c : scan tag c = None -> matches tag c = [].
Proof. rewrite scan_matches. by destruct (matches tag c). Qed.

Lemma stack_Sibling tag n : stack (Sibling tag n) = stack n.
Proof.
  unfold Sibling. destruct (err n); [done|]. by destruct (scan tag (next n)).
Qed.

Lemma wf_intro n :
  (err n = None -> node n <> []) ->
  match stack n with Some m => wf m | None => True end -> wf n.
Proof. destruct n. simpl. auto. Qed.

Lemma wf_node n : wf n -> err n = None -> node n <> [].
Proof. destruct n. simpl. tauto. Qed.

Lemma wf_stack n : wf n -> match stack n with Some m => wf m | None => True end.
Proof. destruct n. simpl. tauto. Qed.

Lemma wf_Sibling_stack tag n :
  match stack n with Some m => wf m | None => True end -> wf (Sibling tag n).
Proof.
  intros Hst. apply wf_intro; [|by rewrite stack_Sibling].
  unfold Sibling. destruct (err n) eqn:He; [by rewrite He|].
  destruct (scan tag (next n)) eqn:Hs; simpl; [|done].
  apply scan_Some in Hs as (? & ? & ? & _ & -> & _). done.
Qed.

Lemma wf_Sibling tag n : wf n -> wf (Sibling tag n).
Proof. intros Hwf. by apply wf_Sibling_stack, wf_stack. Qed.

Lemma Child_Done tag n :
  wf n -> exists n1, Child tag n = Done n1 /\ stack n1 = stack n /\ wf n1.
Proof.
  intros Hwf. unfold Child. destruct (err n) eqn:He; [by exists n|].
  destruct (node n) as [|x rest] eqn:Hn; [by apply wf_node in Hn|]. simpl.
  eexists. split; [done|]. split; [by rewrite stack_Sibling|].
  apply wf_Sibling_stack. simpl. by apply wf_stack.
Qed.

Lemma wf_Push n : wf n -> wf (Push n).
Proof.
  intros Hwf. apply wf_intro; simpl; [|done]. by apply wf_node.
Qed.

Lemma Pop_Push n : Pop (Push n) = Done n.
Proof. done. Qed.

Lemma Pop_stack n m : stack n = Some m -> Pop n = Done m.
Proof. unfold Pop. by intros ->. Qed.

Lemma apply_nav_err o n e0 :
  err n = Some e0 -> isNav o = true -> apply o n = Done n.
Proof.
  intros He Ho. destruct o; try done; simpl.
  - by eapply Child_err.
  - by erewrite Sibling_err.
Qed.

Lemma run_nav_err ops n e0 :
  err n = Some e0 -> Forall (fun o => isNav o = true) ops -> run ops n = Done n.
Proof.
  intros He. induction 1 as [|o ops Ho _ IH]; simpl; [done|].
  by erewrite apply_nav_err.
Qed.

(** C2.  Once the cursor holds an error, every [Child] and [Sibling] call
    of any later sequence returns the cursor as it was, current node,
    resume pointer and error included (so the first error is never
    overwritten), and [ChildText] and [Text] return the empty string. *)
Theorem sticky_error n e0 ops :
  err n = Some e0 ->
  Forall (fun o => isNav o = true) ops ->
  (forall o, o ∈ ops -> apply o n = Done n)
  /\ (forall k, run (take k ops) n = Done n)
  /\ ChildText n = "" /\ Text n = "".
Proof.
  intros He Hops. repeat split.
  - intros o Ho. eapply apply_nav_err; [done|].
    by eapply Forall_forall in Hops.
  - intros k. eapply run_nav_err; [done|]. by apply Forall_take.
  - unfold ChildText. by rewrite He.
  - unfold Text. by rewrite He.
Qed.

Lemma Sibling_found tag n c :
  err n = None -> scan tag (next n) = Some c ->
  Sibling tag n = mkNode c (tail c) None (stack n).
Proof. unfold Sibling. by intros -> ->. Qed.

Lemma Sibling_missing tag n :
  err n = None -> scan tag (next n) = None ->
  Sibling tag n
  = mkNode (node n) (next n) (Some ("no sibling tag " +:+ tag)) (stack n).
Proof. unfold Sibling. by intros -> ->. Qed.

Lemma Sibling_ok_inv tag n :
  err n = None -> err (Sibling tag n) = None ->
  exists c, scan tag (next n) = Some c.
Proof.
  intros He. unfold Sibling. rewrite He.
  destruct (scan tag (next n)); [by eauto|done].
Qed.

Lemma siblingCalls_positions sibs tags n :
  err n = None -> suffix (next n) sibs ->
  Forall (fun m => err m = None) (siblingCalls tags n) ->
  Forall (fun m => suffix (node m) (next n) /\ node m <> []
                   /\ next m = tail (node m)
                   /\ position sibs (next n) <= position sibs (node m))
         (siblingCalls tags n)
  /\ Forall2 (fun t m => exists x rest,
                node m = x :: rest /\ isElement t x = true)
       tags (siblingCalls tags n)
  /\ StronglySorted lt (position sibs ∘ node <$> siblingCalls tags n).
Proof.
  revert n. induction tags as [|t tags IH]; intros n He Hsuf Hok; simpl.
  { repeat split; constructor. }
  simpl in Hok. apply Forall_cons in Hok as [Hok1 Hok].
  destruct (Sibling_ok_inv t n He Hok1) as [c Hc].
  rewrite (Sibling_found t n c He Hc) in *.
  destruct (scan_Some _ _ _ Hc) as (pre & x & rest & Hpre & -> & Hx & _).
  set (n1 := mkNode (x :: rest) (tail (x :: rest)) None (stack n)) in *.
  assert (Hc_suf : suffix (x :: rest) (next n)) by (by exists pre).
  assert (Hn1_suf : suffix (next n1) sibs).
  { transitivity (x :: rest); [by apply suffix_cons_r|by transitivity (next n)]. }
  destruct (IH n1 eq_refl Hn1_suf Hok) as (IH1 & IH2 & IH3).
  assert (Hlen1 : length (x :: rest) <= length (next n))
    by (by apply suffix_length).
  assert (Hlen2 : length (next n) <= length sibs) by (by apply suffix_length).
  assert (Hpos : position sibs (x :: rest) < position sibs (next n1)).
  { unfold position. simpl in *. lia. }
  split; [|split].
  - constructor.
    + simpl. repeat split; [done..|]. unfold position. simpl in *. lia.
    + eapply Forall_impl; [exact IH1|]. simpl.
      intros m (Hm1 & Hm2 & Hm3 & Hm4). repeat split; [|done..|].
      * transitivity rest; [done|].
        transitivity (x :: rest); [by apply suffix_cons_r|done].
      * unfold position in *. simpl in *. lia.
  - constructor; [by exists x, rest|done].
  - simpl. constructor; [done|].
    apply Forall_fmap. eapply Forall_impl; [exact IH1|]. simpl.
    intros m (_ & _ & _ & Hm4). unfold compose, position in *. simpl in *. lia.
Qed.

(** C6.  On a cursor without error, [Sibling] scans from the resume pointer
    [next] (not from the parent's first child): it moves to the first
    element with the tag found there and resumes after it, or sets the
    error.  The nodes visited by a sequence of successful [Sibling] calls
    lie in the resume list at strictly increasing positions, each an element
    with the tag asked for.  [Child] moves to the first child element with
    the tag and sets the error when there is none. *)
Theorem sibling_navigation_monotone n tag :
  err n = None ->
  match scan tag (next n) with
  | Some c =>
      Sibling tag n = mkNode c (tail c) None (stack n)
      /\ exists pre x rest,
           next n = pre ++ c /\ c = x :: rest /\ isElement tag x = true
           /\ Forall (fun y => isElement tag y = false) pre
  | None =>
      Sibling tag n
      = mkNode (node n) (next n) (Some ("no sibling tag " +:+ tag)) (stack n)
      /\ Forall (fun y => isElement tag y = false) (next n)
  end
  /\ (forall tags,
        Forall (fun m => err m = None) (siblingCalls tags n) ->
        Forall (fun m => suffix (node m) (next n) /\ next m = tail (node m))
               (siblingCalls tags n)
        /\ Forall2 (fun t m => exists x rest,
                      node m = x :: rest /\ isElement t x = true)
             tags (siblingCalls tags n)
        /\ StronglySorted lt (position (next n) ∘ node <$> siblingCalls tags n))
  /\ (forall x rest,
        node n = x :: rest ->
        match scan tag (Children x) with
        | Some c =>
            Child tag n = Done (mkNode c (tail c) None (stack n))
            /\ exists pre y rest',
                 Children x = pre ++ c /\ c = y :: rest'
                 /\ isElement tag y = true
                 /\ Forall (fun z => isElement tag z = false) pre
        | None =>
            Child tag n
            = Done (mkNode (Children x) (Children x)
                      (Some ("no sibling tag " +:+ tag)) (stack n))
            /\ Forall (fun z => isElement tag z = false) (Children x)
        end).
Proof.
  intros He. split; [|split].
  - destruct (scan tag (next n)) as [c|] eqn:Hs.
    + split; [by apply Sibling_found|by apply scan_Some].
    + split; [by apply Sibling_missing|by apply scan_None].
  - intros tags Hok.
    destruct (siblingCalls_positions (next n) tags n He (reflexivity _) Hok)
      as (H1 & H2 & H3).
    split; [|done]. eapply Forall_impl; [exact H1|]. simpl. tauto.
  - intros x rest Hn. unfold Child. rewrite He, Hn. simpl.
    destruct (scan tag (Children x)) as [c|] eqn:Hs.
    + split; [|by apply scan_Some]. unfold Sibling. simpl. by rewrite Hs.
    + split; [|by apply scan_None]. unfold Sibling. simpl. by rewrite Hs.
Qed.

(** ** Loops over siblings *)

Lemma Ok_true n : Ok n = true <-> err n = None.
Proof. unfold Ok. by destruct (err n). Qed.

Lemma Ok_false n : Ok n = false <-> err n <> None.
Proof. unfold Ok. by destruct (err n). Qed.

Lemma cursorCells_Sibling tag n :
  err n = None -> cursorCells tag (Sibling tag n) = matches tag (next n).
Proof.
  intros He. unfold cursorCells. destruct (scan tag (next n)) as [c|] eqn:Hs.
  - rewrite (Sibling_found _ _ _ He Hs). simpl. by rewrite (matches_scan _ _ _ Hs).
  - rewrite (Sibling_missing _ _ He Hs). simpl. by rewrite matches_scan_None.
Qed.

Lemma Child_cells tag n :
  wf n -> err n = None ->
  exists n1, Child tag n = Done n1 /\ stack n1 = stack n /\ wf n1
             /\ cursorCells tag n1 = matches tag (kids (node n)).
Proof.
  intros Hwf He. unfold Child. rewrite He.
  destruct (node n) as [|x rest] eqn:Hn; [by apply wf_node in Hwf|]. simpl.
  eexists. split; [done|]. split; [by rewrite stack_Sibling|]. split.
  - apply wf_Sibling_stack. simpl. by apply wf_stack.
  - by rewrite cursorCells_Sibling.
Qed.

Lemma Sibling_next_length tag n :
  err n = None -> err (Sibling tag n) = None ->
  length (next (Sibling tag n)) < length (next n).
Proof.
  intros He Hok. destruct (Sibling_ok_inv _ _ He Hok) as [c Hc].
  rewrite (Sibling_found _ _ _ He Hc). simpl.
  apply scan_Some in Hc as (pre & x & rest & -> & -> & _). simpl.
  rewrite length_app. simpl. lia.
Qed.

Lemma Sibling_next_length_le tag n :
  length (next (Sibling tag n)) <= length (next n).
Proof.
  destruct (err n) eqn:He; [by erewrite Sibling_err|].
  destruct (err (Sibling tag n)) eqn:Hok.
  - destruct (scan tag (next n)) eqn:Hs.
    + by rewrite (Sibling_found _ _ _ He Hs) in Hok.
    + by rewrite (Sibling_missing _ _ He Hs).
  - pose proof (Sibling_next_length _ _ He Hok). lia.
Qed.

(** A loop whose body leaves the cursor where it found it folds the body's
    effect over the cells, and the fuel given to it suffices. *)
Lemma forOk_fold {S : Type} tag (body : Node -> S -> result (Node * S))
    (f : ptr -> S -> S) :
  (forall m s, wf m -> err m = None -> body m s = Done (m, f (node m) s)) ->
  forall fuel n s,
    wf n -> length (next n) < fuel ->
    exists n1,
      forOk fuel tag body n s
      = Done (n1, foldl (fun s p => f p s) s (cursorCells tag n))
      /\ stack n1 = stack n.
Proof.
  intros Hbody. induction fuel as [|fuel IH]; intros n s Hwf Hlen; [lia|].
  simpl. unfold cursorCells. destruct (Ok n) eqn:Hok; [|by exists n].
  apply Ok_true in Hok. rewrite (Hbody _ _ Hwf Hok). simpl.
  destruct (err (Sibling tag n)) eqn:Hs.
  - exists (Sibling tag n). rewrite stack_Sibling. split; [|done].
    pose proof (cursorCells_Sibling tag n Hok) as Hc.
    unfold cursorCells, Ok in Hc. rewrite Hs in Hc. rewrite <- Hc.
    destruct fuel; simpl; unfold Ok; by rewrite Hs.
  - pose proof (Sibling_next_length _ _ Hok Hs).
    destruct (IH (Sibling tag n) (f (node n) s)) as (n1 & Hrun & Hst);
      [by apply wf_Sibling|lia|].
    exists n1. rewrite Hrun, Hst, stack_Sibling.
    by rewrite cursorCells_Sibling.
Qed.

(** ** The extractors *)

Lemma ChildText_ok n : err n = None -> ChildText n = ptrText (node n).
Proof. unfold ChildText. by intros ->. Qed.

Lemma headerCell_spec m headers :
  wf m -> err m = None ->
  headerCell m headers = Done (m, headers ++ [headerLabel (node m)]).
Proof.
  intros Hwf He. unfold headerCell, Child, headerLabel. simpl. rewrite He.
  destruct (node m) as [|x rest] eqn:Hm; [by apply wf_node in Hwf|]. simpl.
  unfold Sibling. simpl. destruct (scan "b" (Children x)) as [b|] eqn:Hs; simpl.
  - done.
  - done.
Qed.

Lemma foldl_snoc_map {A B} (g : A -> B) (l : list A) (acc : list B) :
  foldl (fun s p => s ++ [g p]) acc l = acc ++ (g <$> l).
Proof.
  revert acc. induction l as [|a l IH]; intros acc; simpl.
  - by rewrite app_nil_r.
  - rewrite IH. by rewrite <- app_assoc.
Qed.

Lemma foldl_snoc_omap {A B} (g : A -> option B) (l : list A) (acc : list B) :
  foldl (fun s p => s ++ option_list (g p)) acc l = acc ++ omap g l.
Proof.
  revert acc. induction l as [|a l IH]; intros acc; simpl.
  - by rewrite app_nil_r.
  - rewrite IH, <- app_assoc. by destruct (g a).
Qed.

Lemma cellLoop_spec hs n m i :
  exists n1,
    cellLoop hs n m i
    = (n1,
       foldl (fun m hc => <[hc.1:=TrimSpace (ptrText hc.2)]> m) m
             (zip hs (cursorCells "td" n)),
       i + length hs `min` length (cursorCells "td" n))
    /\ stack n1 = stack n.
Proof.
  revert n m i. induction hs as [|h hs IH]; intros n m i; simpl.
  { exists n. by rewrite Nat.add_0_r. }
  unfold cursorCells at 1 2. destruct (Ok n) eqn:Hok; simpl.
  - apply Ok_true in Hok.
    destruct (IH (Sibling "td" n) (<[h:=TrimSpace (ChildText n)]> m) (S i))
      as (n1 & -> & Hst).
    exists n1. rewrite Hst, stack_Sibling, cursorCells_Sibling by done.
    rewrite ChildText_ok by done. split; [|done]. f_equal. lia.
  - exists n. by rewrite Nat.add_0_r.
Qed.

Lemma moreRow_spec headers m entries :
  wf m -> err m = None ->
  moreRow headers m entries
  = Done (m, entries ++ option_list (acceptRow headers (node m))).
Proof.
  intros Hwf He. unfold moreRow.
  destruct (Child_cells "td" (Push m)) as (n1 & -> & Hst & Hwf1 & Hcells);
    [by apply wf_Push|done|]. simpl.
  destruct (cellLoop_spec headers n1 ∅ 0) as (n2 & -> & Hst2).
  unfold Pop. rewrite Hst2, Hst. simpl. rewrite Hcells. simpl.
  unfold acceptRow, rowCells, rowEntry.
  destruct (decide _) as [Hle|Hgt].
  - rewrite Nat.min_l, Nat.eqb_refl by done. done.
  - rewrite Nat.min_r by lia.
    destruct (Nat.eqb_spec (length (matches "td" (kids (node m))))
                (length headers)); [lia|]. by rewrite app_nil_r.
Qed.

Lemma stripLoop_spec fuel headers :
  (exists k, headers = stripLoop fuel headers ++ replicate k "")
  /\ (length headers <= fuel -> last (stripLoop fuel headers) <> Some "").
Proof.
  revert headers. induction fuel as [|fuel IH]; intros headers; simpl.
  { split; [exists 0; by rewrite app_nil_r|].
    intros Hlen. destruct headers; [done|simpl in Hlen; lia]. }
  destruct (last headers) as [h|] eqn:Hlast; cycle 1.
  { split; [exists 0; by rewrite app_nil_r|]. by rewrite Hlast. }
  destruct (String.eqb_spec h "") as [->|Hne]; cycle 1.
  { split; [exists 0; by rewrite app_nil_r|]. rewrite Hlast. congruence. }
  apply last_Some in Hlast as [pre ->]. rewrite removelast_last.
  destruct (IH pre) as [[k Hk] Hlast]. split.
  - exists (S k). rewrite Hk at 1. rewrite replicate_S_end.
    by rewrite app_assoc.
  - rewrite length_app. simpl. intros ?. apply Hlast. lia.
Qed.

Lemma stripHeaders_spec headers :
  (exists k, headers = stripHeaders headers ++ replicate k "")
  /\ last (stripHeaders headers) <> Some "".
Proof.
  destruct (stripLoop_spec (length headers) headers) as [H1 H2].
  split; [done|]. by apply H2.
Qed.

Lemma detailsTable_Done n :
  wf n -> exists n1, detailsTable n = Done n1 /\ stack n1 = stack n /\ wf n1.
Proof.
  intros Hwf. unfold detailsTable.
  destruct (Child_Done "td" n Hwf) as (n1 & -> & Hs1 & Hwf1). simpl.
  destruct (Child_Done "div" n1 Hwf1) as (n2 & -> & Hs2 & Hwf2). simpl.
  destruct (Child_Done "div" n2 Hwf2) as (n3 & -> & Hs3 & Hwf3). simpl.
  destruct (Child_Done "table" n3 Hwf3) as (n4 & -> & Hs4 & Hwf4). simpl.
  destruct (Child_Done "tbody" (Sibling "table" n4)) as (n5 & -> & Hs5 & Hwf5);
    [by apply wf_Sibling|].
  exists n5. split; [done|]. split; [|done].
  by rewrite Hs5, stack_Sibling, Hs4, Hs3, Hs2, Hs1.
Qed.

Lemma headerRow_Done n :
  wf n -> exists n1, headerRow n = Done n1 /\ stack n1 = Some n /\ wf n1.
Proof.
  intros Hwf. unfold headerRow.
  destruct (detailsTable_Done (Push n)) as (n1 & -> & Hs1 & Hwf1);
    [by apply wf_Push|]. simpl.
  destruct (Child_Done "tr" n1 Hwf1) as (n2 & -> & Hs2 & Hwf2).
  exists n2. split; [done|]. split; [|done]. by rewrite Hs2, Hs1.
Qed.

(** What [more] returns, from the header row it reached. *)
Lemma more_spec n n1 :
  wf n -> headerRow n = Done n1 ->
  more n
  = Done (n, match err n1 with
             | Some e0 => inr e0
             | None =>
                 inl (omap (acceptRow (stripHeaders (rawHeaders (node n1))))
                           (matches "tr" (next n1)))
             end).
Proof.
  intros Hwf Hrow.
  destruct (headerRow_Done n Hwf) as (n1' & Hrow' & Hst & Hwf1).
  rewrite Hrow in Hrow'. injection Hrow' as <-.
  unfold more. unfold headerRow in Hrow.
  destruct (detailsTable (Push n)) as [n0| | |]; cbn [mbind result_bind] in Hrow |- *; try done.
  rewrite Hrow. rsimpl. unfold Err.
  destruct (err n1) as [e0|] eqn:He.
  { unfold Pop. by rewrite Hst. }
  destruct (Child_cells "td" (Push n1)) as (p1 & -> & Hsp & Hwfp & Hcells);
    [by apply wf_Push|done|]. rsimpl.
  destruct (forOk_fold "td" headerCell (fun p hs => hs ++ [headerLabel p])
              headerCell_spec (fuelOf p1) p1 [] Hwfp) as (p2 & -> & Hsp2);
    [unfold fuelOf; lia|]. rsimpl.
  rewrite (Pop_stack p2 n1) by (by rewrite Hsp2, Hsp). rsimpl.
  rewrite Hcells, foldl_snoc_map. cbn [node Push app].
  change (headerLabel <$> matches "td" (kids (node n1)))
    with (rawHeaders (node n1)).
  set (headers := stripHeaders (rawHeaders (node n1))).
  destruct (forOk_fold "tr" (moreRow headers)
              (fun p es => es ++ option_list (acceptRow headers p))
              (moreRow_spec headers) (fuelOf (Sibling "tr" n1))
              (Sibling "tr" n1) []) as (q & -> & Hsq);
    [by apply wf_Sibling|unfold fuelOf; lia|]. rsimpl.
  rewrite (Pop_stack q n) by (by rewrite Hsq, stack_Sibling). rsimpl.
  by rewrite cursorCells_Sibling, foldl_snoc_omap.
Qed.

Lemma foldl_insert_dom (hs : list string) (cells : list ptr) (m : Entry) :
  dom (foldl (fun m hc => <[hc.1:=TrimSpace (ptrText hc.2)]> m) m (zip hs cells))
  = list_to_set (take (length cells) hs) ∪ dom m.
Proof.
  revert cells m. induction hs as [|h hs IH]; intros cells m.
  { simpl. rewrite take_nil. set_solver. }
  destruct cells as [|c cells]; simpl; [set_solver|].
  rewrite IH, dom_insert_L. set_solver.
Qed.

Lemma rowEntry_dom headers cells :
  length headers <= length cells ->
  dom (rowEntry headers cells) = list_to_set headers.
Proof.
  intros Hle. unfold rowEntry. rewrite foldl_insert_dom, take_ge by done.
  set_solver.
Qed.

Lemma foldl_insert_other (hs : list string) (cells : list ptr) (m : Entry) h :
  h ∉ hs ->
  foldl (fun m hc => <[hc.1:=TrimSpace (ptrText hc.2)]> m) m (zip hs cells) !! h
  = m !! h.
Proof.
  revert cells m. induction hs as [|h0 hs IH]; intros cells m Hnot; [done|].
  destruct cells as [|c cells]; simpl; [done|].
  apply not_elem_of_cons in Hnot as [Hne Hnot].
  rewrite IH by done. by rewrite lookup_insert_ne.
Qed.

Lemma rowEntry_lookup headers cells j h c :
  NoDup headers -> headers !! j = Some h -> cells !! j = Some c ->
  rowEntry headers cells !! h = Some (TrimSpace (ptrText c)).
Proof.
  unfold rowEntry. generalize (∅ : Entry).
  revert cells j. induction headers as [|h0 hs IH]; intros cells j m Hnd Hh Hc;
    [done|].
  destruct cells as [|c0 cells]; [done|]. apply NoDup_cons in Hnd as [Hnot Hnd].
  destruct j as [|j]; simpl in *.
  - injection Hh as ->. injection Hc as ->.
    rewrite foldl_insert_other by done. by rewrite lookup_insert_eq.
  - by eapply IH.
Qed.

(** C5.  In [more], with [hdr] the header row reached from the details row
    [n]: the header list used for matching is the raw one with its trailing
    empty labels removed (it does not end in an empty label); the result is,
    in order, the mapping of each later [tr] that has a [td] for every
    remaining header, and no other row contributes anything; the key set of
    every produced mapping is the set of remaining headers, so the trailing
    empty columns give no key. *)
Theorem more_header_stripping n hdr :
  wf n -> headerRow n = Done hdr -> err hdr = None ->
  let raw := rawHeaders (node hdr) in
  let headers := stripHeaders raw in
  (exists k, raw = headers ++ replicate k "")
  /\ last headers <> Some ""
  /\ more n = Done (n, inl (omap (acceptRow headers) (matches "tr" (next hdr))))
  /\ (forall r, is_Some (acceptRow headers r)
                <-> length headers <= length (rowCells r))
  /\ (forall r m, acceptRow headers r = Some m ->
        m = rowEntry headers (rowCells r)
        /\ dom m = list_to_set headers
        /\ (NoDup headers ->
            forall j h c, headers !! j = Some h -> rowCells r !! j = Some c ->
                          m !! h = Some (TrimSpace (ptrText c)))).
Proof.
  intros Hwf Hrow He raw headers.
  destruct (stripHeaders_spec raw) as [Hstrip Hlast].
  split; [done|]. split; [done|]. split; [|split].
  - rewrite (more_spec n hdr Hwf Hrow). by rewrite He.
  - intros r. unfold acceptRow. destruct (decide _) as [Hle|Hgt].
    + split; [done|]. intros _. by eexists.
    + split; [by intros [? ?]|done].
  - intros r m. unfold acceptRow. destruct (decide _) as [Hle|]; [|done].
    intros [= <-]. split; [done|]. split; [by apply rowEntry_dom|].
    intros Hnd j h c. by apply rowEntry_lookup.
Qed.

Lemma Child_Push tag n x rest :
  err n = None -> node n = x :: rest ->
  Child tag (Push n)
  = Done (match scan tag (Children x) with
          | Some c => mkNode c (tail c) None (Some n)
          | None => mkNode (Children x) (Children x)
                      (Some ("no sibling tag " +:+ tag)) (Some n)
          end).
Proof.
  intros He Hn. unfold Child. cbn [err Push node stack]. rewrite He, Hn.
  cbn [FirstChild]. rsimpl. unfold Sibling. cbn [err next stack node].
  by destruct (scan tag (Children x)).
Qed.

Lemma rowLoop_error fuel n values e0 :
  err n = Some e0 -> rowLoop fuel n values = Done (n, inl values).
Proof. intros He. destruct fuel; simpl; unfold Ok; by rewrite He. Qed.

Lemma rowLoop_spec fuel n values :
  wf n -> length (next n) < fuel ->
  exists n1,
    rowLoop fuel n values = Done (n1, rowValues (cursorCells "td" n) values)
    /\ stack n1 = stack n.
Proof.
  revert n values. induction fuel as [|fuel IH]; intros n values Hwf Hlen; [lia|].
  cbn [rowLoop]. unfold cursorCells. destruct (Ok n) eqn:Hok; [|by exists n].
  apply Ok_true in Hok.
  destruct (node n) as [|x rest] eqn:Hn; [by apply wf_node in Hwf|].
  rewrite (Child_Push "label" n x rest Hok Hn). rsimpl.
  cbn [rowValues kids]. unfold Err.
  destruct (scan "label" (Children x)) as [lb|] eqn:Hs; cbn [err]; rsimpl.
  - rewrite Pop_stack with (m := n) by done. rsimpl.
    rewrite ChildText_ok by done. cbn [node].
    destruct (err (Sibling "td" n)) eqn:Hsib.
    + exists (Sibling "td" n). rewrite stack_Sibling. split; [|done].
      pose proof (cursorCells_Sibling "td" n Hok) as Hc.
      unfold cursorCells, Ok in Hc. rewrite Hsib in Hc. rewrite <- Hc.
      by erewrite rowLoop_error.
    + pose proof (Sibling_next_length _ _ Hok Hsib).
      destruct (IH (Sibling "td" n)
                  (values ++ [TrimSpace (ptrText lb)])) as (n1 & Hrun & Hst);
        [by apply wf_Sibling|lia|].
      exists n1. rewrite stack_Sibling in Hst. split; [|done].
      by rewrite cursorCells_Sibling in Hrun.
  - rewrite Pop_stack with (m := n) by done. rsimpl. by exists n.
Qed.

(** [row] returns the label texts of the cells of the row, or the error of
    the first cell without a label, and leaves the cursor on the row. *)
Lemma row_spec n :
  wf n -> err n = None -> row n = Done (n, rowValues (rowCells (node n)) []).
Proof.
  intros Hwf He. unfold row.
  destruct (Child_cells "td" (Push n)) as (n1 & -> & Hst & Hwf1 & Hcells);
    [by apply wf_Push|done|]. rsimpl.
  destruct (rowLoop_spec (fuelOf n1) n1 [] Hwf1) as (n2 & -> & Hst2);
    [unfold fuelOf; lia|]. rsimpl.
  rewrite (Pop_stack n2 n) by (by rewrite Hst2, Hst). rsimpl.
  by rewrite Hcells.
Qed.

Lemma more1Cell_spec m entries :
  wf m -> err m = None ->
  more1Cell m entries = Done (m, panelCell (node m) entries).
Proof.
  intros Hwf He. unfold more1Cell, Child, panelCell, panelKey, panelValue.
  cbn [err Push node stack]. rewrite He, ChildText_ok by done.
  destruct (node m) as [|x rest] eqn:Hm; [by apply wf_node in Hwf|].
  cbn [FirstChild kids]. rsimpl. unfold Sibling, Text. cbn [err next stack].
  by destruct (scan "b" (Children x)) as [b|] eqn:Hs.
Qed.

Lemma more1Row_spec m entries :
  wf m -> err m = None ->
  more1Row m entries = Done (m, panelRow (node m) entries).
Proof.
  intros Hwf He. unfold more1Row.
  destruct (Child_cells "td" (Push m)) as (n1 & -> & Hst & Hwf1 & Hcells);
    [by apply wf_Push|done|]. rsimpl.
  destruct (forOk_fold "td" more1Cell panelCell more1Cell_spec (fuelOf n1) n1
              entries Hwf1) as (n2 & -> & Hst2); [unfold fuelOf; lia|]. rsimpl.
  rewrite (Pop_stack n2 m) by (by rewrite Hst2, Hst). rsimpl.
  by rewrite Hcells.
Qed.

(** [more1] returns the merged key-value pairs of the panel, or the error
    of the failed descent, and leaves the cursor on the details row. *)
Lemma more1_spec n n1 :
  wf n -> detailsTable (Push n) = Done n1 ->
  more1 n
  = Done (n, match err n1 with
             | Some e0 => inr e0
             | None => inl (panelEntries (matches "tr" (kids (node n1))))
             end).
Proof.
  intros Hwf Htab.
  destruct (detailsTable_Done (Push n)) as (n1' & Htab' & Hst & Hwf1);
    [by apply wf_Push|].
  rewrite Htab in Htab'. injection Htab' as <-.
  unfold more1. rewrite Htab. rsimpl. unfold Err.
  destruct (err n1) as [e0|] eqn:He.
  { by rewrite (Pop_stack n1 n). }
  destruct (Child_cells "tr" n1 Hwf1 He) as (n2 & -> & Hst2 & Hwf2 & Hcells).
  rsimpl.
  destruct (forOk_fold "tr" more1Row panelRow more1Row_spec (fuelOf n2) n2
              ∅ Hwf2) as (n3 & -> & Hst3); [unfold fuelOf; lia|]. rsimpl.
  rewrite (Pop_stack n3 n) by (by rewrite Hst3, Hst2, Hst). rsimpl.
  by rewrite Hcells.
Qed.

(** The three extractors return the cursor they were given. *)
Lemma row_restores n : wf n -> exists r, row n = Done (n, r).
Proof.
  intros Hwf. destruct (err n) as [e0|] eqn:He; [|by eexists; apply row_spec].
  unfold row, Child. cbn [err Push]. rewrite He. rsimpl.
  unfold fuelOf. simpl. unfold Ok. cbn [err Push]. rewrite He. rsimpl.
  by eexists.
Qed.

Lemma more_restores n : wf n -> exists r, more n = Done (n, r).
Proof.
  intros Hwf. destruct (headerRow_Done n Hwf) as (n1 & Hrow & _).
  eexists. by apply more_spec.
Qed.

Lemma more1_restores n : wf n -> exists r, more1 n = Done (n, r).
Proof.
  intros Hwf. destruct (detailsTable_Done (Push n)) as (n1 & Htab & _);
    [by apply wf_Push|].
  eexists. by apply more1_spec.
Qed.

(** ** Checkpoints *)

Lemma run_app ops1 ops2 n :
  run (ops1 ++ ops2) n = n1 ← run ops1 n; run ops2 n1.
Proof.
  revert n. induction ops1 as [|o ops1 IH]; intros n; simpl; [done|].
  destruct (apply o n); simpl; auto.
Qed.

Lemma apply_nav_Done o n :
  isNav o = true -> wf n ->
  exists n1, apply o n = Done n1 /\ stack n1 = stack n /\ wf n1.
Proof.
  intros Ho Hwf. destruct o; try done; simpl.
  - by apply Child_Done.
  - eexists. split; [done|]. split; [apply stack_Sibling|by apply wf_Sibling].
Qed.

Lemma run_balanced ops :
  balanced ops ->
  forall n, wf n -> exists n1, run ops n = Done n1 /\ stack n1 = stack n /\ wf n1.
Proof.
  induction 1 as [|o ops Ho _ IH|inner ops _ IHin _ IH]; intros n Hwf.
  - by exists n.
  - destruct (apply_nav_Done o n Ho Hwf) as (n1 & Ha & Hst & Hwf1).
    destruct (IH n1 Hwf1) as (n2 & Hr & Hst2 & Hwf2).
    exists n2. simpl. rewrite Ha. rsimpl. split; [done|].
    split; [by rewrite Hst2|done].
  - destruct (IHin (Push n) (wf_Push n Hwf)) as (n1 & Hr & Hst & Hwf1).
    cbn [run apply]. rsimpl. rewrite run_app, Hr. rsimpl.
    cbn [run apply]. rewrite (Pop_stack n1 n) by done. rsimpl.
    by apply IH.
Qed.

Lemma apply_nav_stack o n n1 :
  isNav o = true -> apply o n = Done n1 -> stack n1 = stack n.
Proof.
  intros Ho. destruct o; try done; simpl.
  - unfold Child. destruct (err n); [by intros [= <-]|].
    destruct (node n); [done|]. simpl. intros [= <-]. by rewrite stack_Sibling.
  - intros [= <-]. apply stack_Sibling.
Qed.

(** A balanced sequence that runs to its end leaves the saved checkpoints
    as they were, whatever the cursor. *)
Lemma run_balanced_stack ops :
  balanced ops -> forall n n1, run ops n = Done n1 -> stack n1 = stack n.
Proof.
  induction 1 as [|o ops Ho _ IH|inner ops _ IHin _ IH]; intros n n1 Hrun.
  - by injection Hrun as <-.
  - simpl in Hrun. destruct (apply o n) as [n0| | |] eqn:Ha; try done.
    cbn [mbind result_bind] in Hrun. rewrite (IH _ _ Hrun).
    by eapply apply_nav_stack.
  - cbn [run apply] in Hrun. cbn [mbind result_bind] in Hrun.
    rewrite run_app in Hrun.
    destruct (run inner (Push n)) as [m| | |] eqn:Hin; try done.
    cbn [mbind result_bind run apply] in Hrun.
    rewrite (Pop_stack m n) in Hrun by (by rewrite (IHin _ _ Hin)).
    cbn [mbind result_bind] in Hrun. by apply IH.
Qed.

Lemma depth_stack a b : stack a = stack b -> depth a = depth b.
Proof. destruct a, b. simpl. by intros ->. Qed.

Lemma depth_Push n : depth (Push n) = S (depth n).
Proof. by destruct n. Qed.

(** C8.  [Push] saves the whole cursor, the pointer to the previously saved
    one included.  After any sequence of operations in which every inner
    [Push] is closed by its [Pop], a [Pop] gives back exactly the cursor
    that was pushed: current node, resume pointer, error and the older
    checkpoints; on a cursor that points at a node the sequence does run
    to that [Pop].  The extractors rely on it: each returns the cursor it
    was given, and [more] reads a header label three checkpoints deep. *)
Theorem checkpoints_lifo n ops :
  balanced ops ->
  Push n = mkNode (node n) (next n) (err n) (Some n)
  /\ (forall n1, run ops (Push n) = Done n1 -> Pop n1 = Done n)
  /\ (wf n ->
      (exists n1, run ops (Push n) = Done n1)
      /\ run (OpPush :: ops ++ [OpPop]) n = Done n
      /\ (exists r, row n = Done (n, r))
      /\ (exists r, more n = Done (n, r))
      /\ (exists r, more1 n = Done (n, r))
      /\ (forall hdr cell label,
            headerRow n = Done hdr -> Child "td" (Push hdr) = Done cell ->
            Child "b" (Push cell) = Done label ->
            depth label = 3 + depth n)).
Proof.
  intros Hbal. split; [done|]. split.
  { intros n1 Hrun. apply Pop_stack.
    by rewrite (run_balanced_stack ops Hbal _ _ Hrun). }
  intros Hwf.
  destruct (run_balanced ops Hbal (Push n) (wf_Push n Hwf)) as (n1 & Hr & Hst & _).
  split; [by exists n1|]. split.
  - cbn [run apply]. rsimpl. rewrite run_app, Hr. rsimpl.
    cbn [run apply]. by rewrite (Pop_stack n1 n).
  - split; [by apply row_restores|]. split; [by apply more_restores|].
    split; [by apply more1_restores|].
    intros hdr cell label Hhdr Hcell Hlabel.
    destruct (headerRow_Done n Hwf) as (hdr' & Hhdr' & Hst1 & Hwf1).
    rewrite Hhdr in Hhdr'. injection Hhdr' as <-.
    destruct (Child_Done "td" (Push hdr) (wf_Push _ Hwf1)) as (c & Hc & Hst2 & Hwf2).
    rewrite Hcell in Hc. injection Hc as <-.
    destruct (Child_Done "b" (Push cell) (wf_Push _ Hwf2)) as (b & Hb & Hst3 & _).
    rewrite Hlabel in Hb. injection Hb as <-.
    rewrite (depth_stack _ _ Hst3), depth_Push.
    rewrite (depth_stack _ _ Hst2), depth_Push.
    replace (depth hdr) with (depth (Push n)); [by rewrite depth_Push|].
    apply depth_stack. by rewrite Hst1.
Qed.

(** ** The ledger *)

Lemma Write_Some k v l m0 :
  e l = Some m0 ->
  Write k v l = Done (mkLedger (entries l) (Some (<[k:=v]> m0))).
Proof. unfold Write. by intros ->. Qed.

Lemma writeAll_fold kvs l m0 :
  e l = Some m0 ->
  writeAll kvs l
  = Done (mkLedger (entries l)
            (Some (foldl (fun m kv => <[kv.1:=kv.2]> m) m0 kvs))).
Proof.
  revert l m0. induction kvs as [|[k v] kvs IH]; intros l m0 He; simpl.
  - destruct l. simpl in He. by rewrite He.
  - rewrite (Write_Some _ _ _ _ He). rsimpl. by rewrite (IH _ (<[k:=v]> m0)).
Qed.

Lemma foldl_insert_union (kvs : list (string * string)) (m0 : Entry) :
  NoDup kvs.*1 ->
  foldl (fun m kv => <[kv.1:=kv.2]> m) m0 kvs = list_to_map kvs ∪ m0.
Proof.
  revert m0. induction kvs as [|[k v] kvs IH]; intros m0 Hnd.
  - simpl. by rewrite (left_id_L ∅ (∪)).
  - rewrite fmap_cons in Hnd. apply NoDup_cons in Hnd as [Hnot Hnd].
    simpl. rewrite IH by done.
    rewrite <- insert_union_l. symmetry. apply insert_union_r.
    by apply not_elem_of_list_to_map_1.
Qed.

Lemma writeAll_map (m : Entry) l m0 :
  e l = Some m0 ->
  writeAll (map_to_list m) l = Done (mkLedger (entries l) (Some (m ∪ m0))).
Proof.
  intros He. rewrite (writeAll_fold _ _ _ He).
  rewrite foldl_insert_union by apply NoDup_fst_map_to_list.
  by rewrite list_to_map_to_list.
Qed.

Lemma index_Done values i v : index values i = Done v <-> values !! i = Some v.
Proof. unfold index. destruct (values !! i); split; congruence. Qed.

Lemma index_cases values i :
  (exists v, values !! i = Some v /\ index values i = Done v)
  \/ (values !! i = None
      /\ index values i = Panic (IndexOutOfRange i (length values))).
Proof. unfold index. destruct (values !! i); [left; eauto|by right]. Qed.

Lemma writeRow_cases cols values l m0 :
  e l = Some m0 ->
  (Forall (fun ki => ki.2 < length values) cols
   /\ writeRow cols values l = writeAll (colFields cols values) l
   /\ (colFields cols values).*1 = cols.*1)
  \/ (exists ki, ki ∈ cols /\ length values <= ki.2
                 /\ writeRow cols values l
                    = Panic (IndexOutOfRange ki.2 (length values))).
Proof.
  revert l m0. induction cols as [|[k i] cols IH]; intros l m0 He.
  { left. by repeat split. }
  cbn [writeRow]. destruct (index_cases values i) as [(v & Hv & ->)|[Hv ->]];
    cycle 1.
  { right. exists (k, i). split; [by left|]. split; [|done].
    by apply lookup_ge_None. }
  rsimpl. rewrite (Write_Some _ _ _ _ He). rsimpl.
  destruct (IH (mkLedger (entries l) (Some (<[k:=v]> m0))) _ eq_refl)
    as [(Hall & Hrun & Hkeys)|(ki & Hin & Hge & Hj)]; [left|right]; cycle 1.
  { exists ki. split; [by right|done]. }
  unfold colFields in *. cbn [omap list_omap fst snd]. rewrite Hv.
  cbn [fmap option_fmap option_map writeAll fst].
  rewrite (Write_Some _ _ _ _ He). rsimpl. repeat split.
  - constructor; [|done]. simpl. by eapply lookup_lt_Some.
  - done.
  - cbn [list_fmap fst]. f_equal. exact Hkeys.
Qed.

Lemma colFields_map header values :
  list_to_map (colFields (map_to_list header) values) = rowFields header values.
Proof.
  apply map_eq. intros k. apply option_eq. intros v.
  unfold rowFields. rewrite lookup_omap, bind_Some. unfold colFields.
  rewrite <- elem_of_list_to_map; cycle 1.
  { assert (Hsub : forall cols : list (string * nat),
               (omap (fun ki => pair ki.1 <$> values !! ki.2) cols).*1
               `sublist_of` cols.*1).
    { induction cols as [|[k0 i0] cols IH]; simpl; [done|].
      destruct (values !! i0); simpl; [by constructor|by constructor]. }
    eapply sublist_NoDup; [|apply Hsub]. apply NoDup_fst_map_to_list. }
  rewrite list_elem_of_omap. split.
  - intros ([k0 i] & Hin & Heq). simpl in Heq.
    destruct (values !! i) as [v0|] eqn:Hv; [|done]. injection Heq as -> ->.
    exists i. by rewrite <- elem_of_map_to_list.
  - intros (i & Hh & Hv). exists (k, i). rewrite elem_of_map_to_list.
    split; [done|]. simpl. by rewrite Hv.
Qed.

(** Writing all primary-row fields: every column index is within the row
    and the entry gains the row's fields, or one is not and the run
    panics. *)
Lemma writeRow_header header values l m0 :
  e l = Some m0 ->
  (writeRow (map_to_list header) values l
   = Done (mkLedger (entries l) (Some (rowFields header values ∪ m0)))
   /\ forall k i, header !! k = Some i -> i < length values)
  \/ (exists k i, header !! k = Some i /\ length values <= i
                  /\ writeRow (map_to_list header) values l
                     = Panic (IndexOutOfRange i (length values))).
Proof.
  intros He.
  destruct (writeRow_cases (map_to_list header) values l m0 He)
    as [(Hall & -> & Hkeys)|([k i] & Hin & Hge & Hw)]; [left|right].
  - split.
    + rewrite (writeAll_fold _ _ _ He), foldl_insert_union.
      * by rewrite colFields_map.
      * rewrite Hkeys. apply NoDup_fst_map_to_list.
    + intros k i Hk. apply elem_of_map_to_list in Hk.
      rewrite Forall_forall in Hall. by apply (Hall (k, i)).
  - exists k, i. by apply elem_of_map_to_list in Hin.
Qed.

(** ** The loop over the rows ends *)

Lemma bind_not_Timeout {A B} (r : result A) (k : A -> result B) :
  r <> Timeout -> (forall a, r = Done a -> k a <> Timeout) ->
  r ≫= k <> Timeout.
Proof. destruct r; rsimpl; try done. intros _ Hk. by apply Hk. Qed.

Lemma index_not_Timeout values i : index values i <> Timeout.
Proof. unfold index. by destruct (values !! i). Qed.

Lemma Write_not_Timeout k v l : Write k v l <> Timeout.
Proof. unfold Write. by destruct (e l). Qed.

Lemma writeRow_not_Timeout cols values l : writeRow cols values l <> Timeout.
Proof.
  revert l. induction cols as [|[k i] cols IH]; intros l; [done|].
  cbn [writeRow]. apply bind_not_Timeout; [apply index_not_Timeout|].
  intros v _. apply bind_not_Timeout; [apply Write_not_Timeout|]. auto.
Qed.

Lemma writeAll_not_Timeout kvs l : writeAll kvs l <> Timeout.
Proof.
  revert l. induction kvs as [|[k v] kvs IH]; intros l; [done|].
  cbn [writeAll]. apply bind_not_Timeout; [apply Write_not_Timeout|]. auto.
Qed.

Lemma writeCore_not_Timeout keys header values l :
  writeCore keys header values l <> Timeout.
Proof.
  revert l. induction keys as [|k keys IH]; intros l; [done|].
  cbn [writeCore]. apply bind_not_Timeout; [apply index_not_Timeout|].
  intros v _. apply bind_not_Timeout; [apply Write_not_Timeout|]. auto.
Qed.

Lemma fanOut_not_Timeout header values entries l :
  fanOut header values entries l <> Timeout.
Proof.
  revert l. induction entries as [|m entries IH]; intros l; [done|].
  cbn [fanOut]. apply bind_not_Timeout; [apply writeCore_not_Timeout|].
  intros l1 _. apply bind_not_Timeout; [apply writeAll_not_Timeout|]. auto.
Qed.

Lemma settles_bind {A} (r : result A) (k : A -> result (Node * Ledger)) n :
  r <> Timeout -> (forall a, r = Done a -> settles n (k a)) ->
  settles n (r ≫= k).
Proof. destruct r; rsimpl; try done. intros _ Hk. by apply Hk. Qed.

Lemma classify_settles header values n l :
  wf n -> settles n (classify header values n l).
Proof.
  intros Hwf. unfold classify.
  pose proof (wf_Sibling "tr" n Hwf) as Hwf1.
  apply settles_bind; [apply index_not_Timeout|]. intros action _.
  unfold dispatch, caseLapse, caseDeposit, caseExercise.
  destruct (String.eqb action "Lapse").
  { apply settles_bind; [apply writeRow_not_Timeout|]. intros l1 _.
    destruct (more1_restores _ Hwf1) as [r ->]. rsimpl.
    destruct r; [|done].
    apply settles_bind; [apply writeAll_not_Timeout|]. intros l2 _.
    by right. }
  destruct (_ || _).
  { apply settles_bind; [apply writeRow_not_Timeout|]. intros l1 _.
    destruct (more_restores _ Hwf1) as [r ->]. rsimpl.
    destruct r as [ms|]; [|done].
    destruct (negb _); [done|]. destruct (ms !! 0); [|done].
    apply settles_bind; [apply writeAll_not_Timeout|]. intros l2 _.
    by right. }
  destruct (_ || _).
  { destruct (more_restores _ Hwf1) as [r ->]. rsimpl.
    destruct r as [ms|]; [|done]. destruct (_ =? _)%nat; [done|].
    apply settles_bind; [apply fanOut_not_Timeout|]. intros l2 _.
    by right. }
  destruct (String.eqb action "Journal"); [by right|].
  destruct (String.eqb action "Forced Disbursement"); [by left|done].
Qed.

Lemma step_settles header n l : wf n -> settles n (step header n l).
Proof.
  intros Hwf. unfold step. destruct (row_restores n Hwf) as [r ->]. rsimpl.
  destruct r; [|done]. by apply classify_settles.
Qed.

Lemma forOk_error {S} fuel tag (body : Node -> S -> result (Node * S)) n s :
  Ok n = false -> forOk fuel tag body n s = Done (n, s).
Proof. intros Hok. destruct fuel; simpl; by rewrite Hok. Qed.

Lemma step_next header n l n1 l1 :
  wf n -> step header n l = Done (n1, l1) ->
  wf (Sibling "tr" n1)
  /\ (Ok (Sibling "tr" n1) = true ->
      length (next (Sibling "tr" n1)) < length (next n)).
Proof.
  intros Hwf Hstep. pose proof (step_settles header n l Hwf) as Hset.
  rewrite Hstep in Hset. simpl in Hset. split.
  - destruct Hset as [->| ->]; by repeat apply wf_Sibling.
  - intros Hok1. apply Ok_true in Hok1.
    assert (length (next (Sibling "tr" n1)) < length (next n1)) as Hlt.
    { apply Sibling_next_length; [|done].
      destruct (err n1) eqn:He1; [|done].
      by rewrite (Sibling_err _ _ _ He1), He1 in Hok1. }
    assert (length (next n1) <= length (next n)).
    { destruct Hset as [->| ->]; [done|apply Sibling_next_length_le]. }
    lia.
Qed.

(** With fuel above the number of nodes after the cursor the loop over the
    rows ends, and more fuel changes nothing. *)
Lemma rows_fuel header f1 f2 n l :
  wf n ->
  (Ok n = true -> length (next n) < f1 /\ length (next n) < f2) ->
  forOk f1 "tr" (step header) n l = forOk f2 "tr" (step header) n l
  /\ forOk f1 "tr" (step header) n l <> Timeout.
Proof.
  revert f2 n l. induction f1 as [|f1 IH]; intros f2 n l Hwf Hlen.
  { destruct (Ok n) eqn:Hok; [destruct Hlen; [done|lia]|].
    by rewrite !forOk_error. }
  destruct (Ok n) eqn:Hok; [|by rewrite !forOk_error].
  destruct Hlen as [Hl1 Hl2]; [done|]. destruct f2 as [|f2]; [lia|].
  cbn [forOk]. rewrite Hok.
  pose proof (step_settles header n l Hwf) as Hset.
  destruct (step header n l) as [[n1 l1]| | |] eqn:Hstep; rsimpl; try done.
  destruct (step_next _ _ _ _ _ Hwf Hstep) as [Hwf1 Hlt].
  apply IH; [done|]. intros Hok1. specialize (Hlt Hok1). lia.
Qed.

Lemma rows_unfold header n l :
  wf n -> Ok n = true ->
  rows header n l
  = '(n1, l1) ← step header n l; rows header (Sibling "tr" n1) l1.
Proof.
  intros Hwf Hok. unfold rows at 1, fuelOf. cbn [forOk]. rewrite Hok.
  destruct (step header n l) as [[n1 l1]| | |] eqn:Hstep; rsimpl; try done.
  destruct (step_next _ _ _ _ _ Hwf Hstep) as [Hwf1 Hlt].
  apply rows_fuel; [done|]. intros Hok1. specialize (Hlt Hok1).
  unfold fuelOf. lia.
Qed.

Lemma rows_not_Timeout header n l : wf n -> rows header n l <> Timeout.
Proof.
  intros Hwf. apply (rows_fuel header _ (fuelOf n)); [done|].
  unfold fuelOf. lia.
Qed.

(** The outcome of the loop is that of the loop from any iteration it
    comes to. *)
Lemma reaches_rows header x y :
  reaches header x y -> wf x.1 -> rows header x.1 x.2 = rows header y.1 y.2.
Proof.
  induction 1 as [|n l n1 l1 y Hok Hstep _ IH]; [done|]. simpl. intros Hwf.
  rewrite rows_unfold, Hstep by done. rsimpl.
  apply IH. simpl. by eapply step_next.
Qed.

Lemma tableBody_cursor root n :
  tableBody root = Done n -> wf n /\ err n = None.
Proof.
  unfold tableBody. destruct root as [|x0 rest0]; [done|].
  set (n0 := mkNode (x0 :: rest0) (x0 :: rest0) None None).
  assert (Hwf0 : wf n0) by done.
  destruct (Child_Done "table" n0 Hwf0) as (n1 & -> & _ & Hwf1). rsimpl.
  destruct (Child_Done "tbody" n1 Hwf1) as (n2 & -> & _ & Hwf2). rsimpl.
  destruct (Child_Done "tr" n2 Hwf2) as (n3 & -> & _ & Hwf3). rsimpl.
  destruct (Child_Done "td" (Sibling "tr" n3)) as (n4 & -> & _ & Hwf4);
    [by apply wf_Sibling|]. rsimpl.
  destruct (Child_Done "table" n4 Hwf4) as (n5 & -> & _ & Hwf5). rsimpl.
  destruct (Child_Done "tbody" n5 Hwf5) as (n6 & -> & _ & Hwf6). rsimpl.
  destruct (node n6) as [|x rest]; [done|]. destruct (negb _); [done|].
  destruct (Child_Done "tr" n6 Hwf6) as (n7 & -> & _ & Hwf7). rsimpl.
  unfold Err. destruct (err n7) eqn:He; [done|]. by intros [= <-].
Qed.

Lemma tableBody_not_Timeout root : tableBody root <> Timeout.
Proof.
  destruct (tableBody root) as [n| | |] eqn:Htab; try done.
  revert Htab. unfold tableBody. destruct root as [|x0 rest0]; [done|].
  set (n0 := mkNode (x0 :: rest0) (x0 :: rest0) None None).
  assert (Hwf0 : wf n0) by done.
  destruct (Child_Done "table" n0 Hwf0) as (n1 & -> & _ & Hwf1). rsimpl.
  destruct (Child_Done "tbody" n1 Hwf1) as (n2 & -> & _ & Hwf2). rsimpl.
  destruct (Child_Done "tr" n2 Hwf2) as (n3 & -> & _ & Hwf3). rsimpl.
  destruct (Child_Done "td" (Sibling "tr" n3)) as (n4 & -> & _ & Hwf4);
    [by apply wf_Sibling|]. rsimpl.
  destruct (Child_Done "table" n4 Hwf4) as (n5 & -> & _ & Hwf5). rsimpl.
  destruct (Child_Done "tbody" n5 Hwf5) as (n6 & -> & _ & Hwf6). rsimpl.
  destruct (node n6) as [|x rest]; [done|]. destruct (negb _); [done|].
  destruct (Child_Done "tr" n6 Hwf6) as (n7 & -> & _ & Hwf7). rsimpl.
  unfold Err. by destruct (err n7).
Qed.

Lemma start_cursor doc header n :
  start doc = Done (header, n) -> wf n /\ err n = None.
Proof.
  unfold start. destruct (findHistory doc []) as [root|]; [|done].
  destruct (tableBody root) as [n0| | |] eqn:Htab; rsimpl; try done.
  apply tableBody_cursor in Htab as [Hwf He].
  destruct (row_restores n0 Hwf) as [r ->]. rsimpl. destruct r; [|done].
  by intros [= _ <-].
Qed.

Lemma start_not_Timeout doc : start doc <> Timeout.
Proof.
  unfold start. destruct (findHistory doc []) as [root|]; [|done].
  apply bind_not_Timeout; [apply tableBody_not_Timeout|].
  intros n [Hwf He]%tableBody_cursor.
  destruct (row_restores n Hwf) as [r ->]. rsimpl. by destruct r.
Qed.

(** The fuel of the model never runs out: [main] ends on every document,
    with the array it writes, a fatal error or a panic. *)
Lemma main_ends doc : main doc <> Timeout.
Proof.
  unfold main. apply bind_not_Timeout; [|done]. unfold buildLedger.
  apply bind_not_Timeout; [apply start_not_Timeout|].
  intros [header n] [Hwf He]%start_cursor.
  apply bind_not_Timeout; [apply rows_not_Timeout; by apply wf_Sibling|].
  by intros [? ?] _.
Qed.

(** What [main] does is decided by the loop from any iteration it comes
    to. *)
Lemma main_from doc header hn n l :
  start doc = Done (header, hn) ->
  reaches header (Sibling "tr" hn, zeroLedger) (n, l) ->
  main doc = '(_, l1) ← rows header n l; Done (entries l1).
Proof.
  intros Hstart Hreach. unfold main, buildLedger. rewrite Hstart. rsimpl.
  apply start_cursor in Hstart as [Hwf _].
  pose proof (reaches_rows _ _ _ Hreach) as Hrows. simpl in Hrows.
  rewrite Hrows by (by apply wf_Sibling).
  by destruct (rows header n l) as [[? ?]| | |].
Qed.

Lemma rows_step_aborts header n l :
  Ok n = true ->
  match step header n l with
  | Fatal f => rows header n l = Fatal f
  | Panic p => rows header n l = Panic p
  | _ => True
  end.
Proof.
  intros Hok. unfold rows, fuelOf. cbn [forOk]. rewrite Hok.
  by destruct (step header n l).
Qed.

(** ** The row classifier *)

Lemma Next_constructed l : Next l = mkLedger (constructed l) (Some ∅).
Proof.
  unfold Next, constructed, pending. f_equal.
  destruct (e l) as [m|]; [|by rewrite app_nil_r].
  destruct (bool_decide _); [done|by rewrite app_nil_r].
Qed.

Lemma constructed_nonempty es (m : Entry) :
  m <> ∅ -> constructed (mkLedger es (Some m)) = es ++ [m].
Proof.
  intros Hne. unfold constructed, pending. simpl.
  rewrite bool_decide_eq_true_2; [done|].
  apply map_size_non_empty_iff in Hne. lia.
Qed.

Lemma coreFields_dom header values core :
  coreFields header values = Some core ->
  dom core = list_to_set coreKeys.
Proof.
  unfold coreFields. intros Hcore.
  repeat (apply bind_Some in Hcore as (? & _ & Hcore)).
  injection Hcore as <-. rewrite !dom_insert_L, dom_empty_L. simpl. set_solver.
Qed.

Lemma union_core_nonempty header values core (m : Entry) :
  coreFields header values = Some core -> m ∪ core <> ∅.
Proof.
  intros Hdom%coreFields_dom Hempty.
  assert (Hin : "Symbol" ∈ dom (m ∪ core)).
  { rewrite dom_union_L, Hdom. simpl. set_solver. }
  rewrite Hempty, dom_empty_L in Hin. set_solver.
Qed.

Lemma writeCore_core header values core l :
  coreFields header values = Some core -> e l = Some ∅ ->
  writeCore coreKeys header values l = Done (mkLedger (entries l) (Some core)).
Proof.
  unfold coreFields. intros Hcore He.
  apply bind_Some in Hcore as (v1 & H1 & Hcore).
  apply bind_Some in Hcore as (v2 & H2 & Hcore).
  apply bind_Some in Hcore as (v3 & H3 & Hcore).
  apply bind_Some in Hcore as (v4 & H4 & Hcore).
  injection Hcore as <-. unfold coreKeys. cbn [writeCore]. unfold index.
  rewrite H1. rsimpl. rewrite (Write_Some _ _ _ _ He). rsimpl.
  rewrite H2. rsimpl. erewrite Write_Some by done. rsimpl.
  rewrite H3. rsimpl. erewrite Write_Some by done. rsimpl.
  rewrite H4. rsimpl. erewrite Write_Some by done. by rsimpl.
Qed.

Lemma writeCore_panics header values l :
  coreFields header values = None -> e l = Some ∅ ->
  exists i, writeCore coreKeys header values l
            = Panic (IndexOutOfRange i (length values)).
Proof.
  unfold coreFields, coreKeys. intros Hcore He. cbn [writeCore]. unfold index.
  destruct (values !! headerIndex header "Date"); [|by eexists].
  rsimpl. rewrite (Write_Some _ _ _ _ He). rsimpl.
  destruct (values !! headerIndex header "Description"); [|by eexists].
  rsimpl. erewrite Write_Some by done. rsimpl.
  destruct (values !! headerIndex header "Action"); [|by eexists].
  rsimpl. erewrite Write_Some by done. rsimpl.
  destruct (values !! headerIndex header "Symbol"); [done|by eexists].
Qed.

(** The fan-out loop: one entry per mapping, the mapping laid over the core
    fields, in the order of the mappings. *)
Lemma fanOut_spec header values core ms l :
  coreFields header values = Some core ->
  exists l1,
    fanOut header values ms l = Done l1
    /\ constructed l1 = constructed l ++ ((fun m => m ∪ core) <$> ms)
    /\ (forall m0, last ms = Some m0 -> e l1 = Some (m0 ∪ core)).
Proof.
  intros Hcore. revert l. induction ms as [|m ms IH]; intros l.
  { exists l. split; [done|]. split; [by rewrite app_nil_r|done]. }
  cbn [fanOut]. rewrite Next_constructed.
  rewrite (writeCore_core _ _ core) by done. rsimpl.
  rewrite (writeAll_map m _ core) by done. rsimpl. cbn [entries].
  destruct (IH (mkLedger (constructed l) (Some (m ∪ core))))
    as (l1 & Hrun & Hcons & Hlast).
  exists l1. split; [done|]. split.
  - rewrite Hcons, constructed_nonempty by (by eapply union_core_nonempty).
    by rewrite fmap_cons, <- app_assoc.
  - intros m0 Hm0. destruct ms as [|m' ms]; [|by apply Hlast].
    injection Hm0 as <-. simpl in Hrun. by injection Hrun as <-.
Qed.

Lemma step_row header n n1 l values :
  row n = Done (n1, inl values) ->
  step header n l
  = action ← index values (headerIndex header "Action");
    dispatch header values action n1 l.
Proof. intros Hrow. unfold step. by rewrite Hrow. Qed.

Lemma main_step_aborts doc header hn n l :
  start doc = Done (header, hn) ->
  reaches header (Sibling "tr" hn, zeroLedger) (n, l) ->
  Ok n = true ->
  match step header n l with
  | Fatal f => main doc = Fatal f
  | Panic p => main doc = Panic p
  | _ => True
  end.
Proof.
  intros Hstart Hreach Hok. rewrite (main_from _ _ _ _ _ Hstart Hreach).
  pose proof (rows_step_aborts header n l Hok) as Hrows.
  destruct (step header n l); try done; by rewrite Hrows.
Qed.

Lemma coreFields_lookup header values core k :
  coreFields header values = Some core -> k ∈ coreKeys ->
  core !! k = values !! headerIndex header k.
Proof.
  unfold coreFields. intros Hcore Hk.
  apply bind_Some in Hcore as (v1 & H1 & Hcore).
  apply bind_Some in Hcore as (v2 & H2 & Hcore).
  apply bind_Some in Hcore as (v3 & H3 & Hcore).
  apply bind_Some in Hcore as (v4 & H4 & Hcore).
  injection Hcore as <-. unfold coreKeys in Hk.
  repeat (apply elem_of_cons in Hk as [->|Hk]); [..|by apply elem_of_nil in Hk];
    by simplify_map_eq.
Qed.

(** C3, as amended.  For an Exer and Hold or Sale row whose details give
    the mappings [ms]: with none the run is fatal; with at least one, and a
    cell in the row at the index of each core column, the iteration adds
    exactly one entry per mapping to those the ledger has constructed, in
    the order of the mappings, each the mapping laid over the four core
    fields Date, Description, Action and Symbol of the row. *)
Theorem fan_out_entries header n l n1 values action n2 ms core :
  Ok n = true -> row n = Done (n1, inl values) ->
  index values (headerIndex header "Action") = Done action ->
  action = "Exer and Hold" \/ action = "Sale" ->
  more (Sibling "tr" n1) = Done (n2, inl ms) ->
  (ms = [] ->
     step header n l = Fatal EmptyMoreDetails
     /\ forall doc hn,
          start doc = Done (header, hn) ->
          reaches header (Sibling "tr" hn, zeroLedger) (n, l) ->
          main doc = Fatal EmptyMoreDetails)
  /\ (ms <> [] -> coreFields header values = Some core ->
      exists l1,
        step header n l = Done (n2, l1)
        /\ constructed l1 = constructed l ++ ((fun m => m ∪ core) <$> ms)
        /\ length (constructed l1) = length (constructed l) + length ms
        /\ dom core = list_to_set coreKeys
        /\ (forall k, k ∈ coreKeys -> core !! k = values !! headerIndex header k)
        /\ (forall m, dom (m ∪ core) = dom m ∪ list_to_set coreKeys
                      /\ m ⊆ m ∪ core)).
Proof.
  intros Hok Hrow Hact Hcase Hmore.
  assert (Hstep : step header n l = caseExercise header values n1 l).
  { rewrite (step_row _ _ _ _ _ Hrow), Hact. rsimpl.
    by destruct Hcase as [-> | ->]. }
  unfold caseExercise in Hstep. rewrite Hmore in Hstep.
  cbn [mbind result_bind] in Hstep.
  split.
  - intros ->. split; [done|]. intros doc hn Hstart Hreach.
    pose proof (main_step_aborts _ _ _ _ _ Hstart Hreach Hok) as Hmain.
    by rewrite Hstep in Hmain.
  - intros Hne Hcore. destruct ms as [|m ms]; [done|].
    destruct (fanOut_spec header values core (m :: ms) l Hcore)
      as (l1 & Hfan & Hcons & _).
    exists l1. cbn [length Nat.eqb] in Hstep. rewrite Hfan in Hstep.
    split; [done|]. split; [done|]. split.
    { by rewrite Hcons, length_app, length_fmap. }
    split; [by eapply coreFields_dom|].
    split; [intros k; by apply coreFields_lookup|].
    intros m'. split; [|apply map_union_subseteq_l].
    rewrite dom_union_L. f_equal. by eapply coreFields_dom.
Qed.

Lemma aborts_status {A} (r : result A) :
  aborts r -> stdout r = None /\ exists s, exit_status r = Some s /\ s <> 0.
Proof.
  intros [[f ->]|[p ->]]; (split; [done|]); [by exists 1|by exists 2].
Qed.

(** C4.  For a Deposit or Forced Quick Sell row whose details give the
    mappings [ms]: when their number is not one the run aborts, with a
    non-zero exit status and nothing written; when it is one, the entry in
    progress is the mapping laid over all the primary-row fields written
    before the extraction. *)
Theorem deposit_cardinality header n l n1 values action n2 ms :
  Ok n = true -> row n = Done (n1, inl values) ->
  index values (headerIndex header "Action") = Done action ->
  action = "Deposit" \/ action = "Forced Quick Sell" ->
  more (Sibling "tr" n1) = Done (n2, inl ms) ->
  (length ms <> 1 ->
     aborts (step header n l)
     /\ ((forall k i, header !! k = Some i -> i < length values) ->
         step header n l = Fatal (ExpectedOneRow (length ms)))
     /\ forall doc hn,
          start doc = Done (header, hn) ->
          reaches header (Sibling "tr" hn, zeroLedger) (n, l) ->
          aborts (main doc) /\ stdout (main doc) = None
          /\ exists s, exit_status (main doc) = Some s /\ s <> 0)
  /\ (forall m l1,
        ms = [m] ->
        writeRow (map_to_list header) values (Next l) = Done l1 ->
        l1 = mkLedger (constructed l) (Some (rowFields header values))
        /\ step header n l
           = Done (n2, mkLedger (constructed l)
                         (Some (m ∪ rowFields header values)))).
Proof.
  intros Hok Hrow Hact Hcase Hmore.
  assert (Hstep : step header n l = caseDeposit header values n1 l).
  { rewrite (step_row _ _ _ _ _ Hrow), Hact. rsimpl.
    by destruct Hcase as [-> | ->]. }
  unfold caseDeposit in Hstep. rewrite Next_constructed in *.
  set (l0 := mkLedger (constructed l) (Some ∅)) in *.
  assert (Hmain : forall doc hn,
             start doc = Done (header, hn) ->
             reaches header (Sibling "tr" hn, zeroLedger) (n, l) ->
             aborts (step header n l) ->
             aborts (main doc) /\ stdout (main doc) = None
             /\ exists s, exit_status (main doc) = Some s /\ s <> 0).
  { intros doc hn Hstart Hreach Hab.
    pose proof (main_step_aborts _ _ _ _ _ Hstart Hreach Hok) as Hmain.
    assert (aborts (main doc)) as Hab'; [|split; [done|by apply aborts_status]].
    destruct Hab as [[f Hf]|[p Hp]].
    - rewrite Hf in Hmain. left. by exists f.
    - rewrite Hp in Hmain. right. by exists p. }
  destruct (writeRow_header header values l0 ∅ eq_refl)
    as [[Hw Hrange]|(k & i & Hk & Hge & Hw)];
    rewrite Hw in Hstep; cbn [mbind result_bind] in Hstep;
    rewrite ?Hmore in Hstep; cbn [mbind result_bind] in Hstep.
  - rewrite (right_id_L ∅ (∪)) in Hw, Hstep. split.
    + intros Hlen.
      assert (step header n l = Fatal (ExpectedOneRow (length ms))) as Hbad.
      { rewrite Hstep. by destruct (Nat.eqb_spec (length ms) 1). }
      split; [left; by eexists|]. split; [done|].
      intros doc hn Hstart Hreach. eapply Hmain; [done..|].
      left. by eexists.
    + intros m l1 -> Hl1. rewrite Hw in Hl1. injection Hl1 as <-.
      split; [done|]. rewrite Hstep. cbn [length Nat.eqb negb lookup list_lookup].
      rewrite (writeAll_map m _ (rowFields header values)) by done.
      by rsimpl.
  - split.
    + intros _. split; [right; by eexists|]. split.
      * intros Hrange. specialize (Hrange _ _ Hk). lia.
      * intros doc hn Hstart Hreach. eapply Hmain; [done..|].
        right. by eexists.
    + intros m l1 _ Hl1. by rewrite Hw in Hl1.
Qed.

Lemma dispatch_unknown header values a n l :
  a ∉ recognized -> dispatch header values a n l = Fatal (UnknownRowType a).
Proof.
  unfold recognized. intros Hnot.
  repeat (apply not_elem_of_cons in Hnot as [?%String.eqb_neq Hnot]).
  unfold dispatch. by repeat match goal with H : String.eqb _ _ = false |- _ =>
                                rewrite H; clear H end.
Qed.

(** C7, as amended.  A row the loop reads (one an iteration of the loop
    starts at) whose Action value is none of the seven recognized ones is
    fatal: the iteration that reads it ends the run with exit status 1 and
    nothing written, whatever rows the loop has been through before.  A
    row the loop steps over unread, the [tr] taken as the details row of a
    Journal row, is not classified at all. *)
Theorem unknown_action_fatal header n l n1 values a :
  Ok n = true -> row n = Done (n1, inl values) ->
  index values (headerIndex header "Action") = Done a ->
  a ∉ recognized ->
  step header n l = Fatal (UnknownRowType a)
  /\ rows header n l = Fatal (UnknownRowType a)
  /\ forall doc hn,
       start doc = Done (header, hn) ->
       reaches header (Sibling "tr" hn, zeroLedger) (n, l) ->
       main doc = Fatal (UnknownRowType a)
       /\ exit_status (main doc) = Some 1 /\ stdout (main doc) = None.
Proof.
  intros Hok Hrow Hact Hnot.
  assert (Hstep : step header n l = Fatal (UnknownRowType a)).
  { rewrite (step_row _ _ _ _ _ Hrow), Hact. rsimpl.
    by apply dispatch_unknown. }
  split; [done|]. split.
  - pose proof (rows_step_aborts header n l Hok) as Hrows.
    by rewrite Hstep in Hrows.
  - intros doc hn Hstart Hreach.
    pose proof (main_step_aborts _ _ _ _ _ Hstart Hreach Hok) as Hmain.
    rewrite Hstep in Hmain. by rewrite Hmain.
Qed.

Lemma headerLoop_None i vals (header : gmap string nat) k :
  headerLoop i vals header !! k = None <-> (k ∉ vals) /\ header !! k = None.
Proof.
  revert i header. induction vals as [|v vals IH]; intros i header; simpl.
  { split; [|by intros [_ ?]]. intros ?. split; [apply not_elem_of_nil|done]. }
  rewrite IH, not_elem_of_cons, lookup_insert_None. naive_solver.
Qed.

(** C10.  When no header cell is labelled Action the lookup of the Action
    column gives index 0: the classifier reads the first cell of every row
    as its Action and goes on from that value (with no first cell the index
    is out of range); nothing reports the missing column. *)
Theorem missing_action_column headerVals :
  "Action" ∉ headerVals ->
  makeHeader headerVals !! "Action" = None
  /\ headerIndex (makeHeader headerVals) "Action" = 0
  /\ (forall v vs n l,
        classify (makeHeader headerVals) (v :: vs) n l
        = dispatch (makeHeader headerVals) (v :: vs) v n l)
  /\ (forall n l,
        classify (makeHeader headerVals) [] n l = Panic (IndexOutOfRange 0 0))
  /\ (forall n n1 l v vs,
        row n = Done (n1, inl (v :: vs)) ->
        step (makeHeader headerVals) n l
        = dispatch (makeHeader headerVals) (v :: vs) v n1 l).
Proof.
  intros Hnot.
  assert (Hnone : makeHeader headerVals !! "Action" = None).
  { unfold makeHeader. by apply headerLoop_None. }
  assert (Hidx : headerIndex (makeHeader headerVals) "Action" = 0).
  { unfold headerIndex. by rewrite Hnone. }
  split; [done|]. split; [done|]. split; [|split].
  - intros v vs n l. unfold classify. by rewrite Hidx.
  - intros n l. unfold classify. by rewrite Hidx.
  - intros n n1 l v vs Hrow. rewrite (step_row _ _ _ _ _ Hrow). by rewrite Hidx.
Qed.

(** ** The end of the input *)

(** [main] writes the committed entries of the ledger its loop has built;
    the entry in progress is not among them. *)
Lemma main_emits_entries doc l :
  buildLedger doc = Done l -> main doc = Done (entries l).
Proof. unfold main. by intros ->. Qed.

(** C1 (the entry in progress at the end of the input is the last element
    of the output) does not hold of [main]: there is no [Next] after the
    loop.  On a page with a single Deposit row the loop ends with the row's
    entry in progress and nothing committed, and [main] writes an empty
    array. *)
Theorem last_entry_not_emitted :
  buildLedger depositPage = Done (mkLedger [] (Some depositEntry))
  /\ constructed (mkLedger [] (Some depositEntry)) = [depositEntry]
  /\ main depositPage = Done [].
Proof. vm_compute. done. Qed.

(** With [n.Ok()] consulted first, as in the other snapshot, the shape check
    reads a node: the descent from an anchor never dereferences nil. *)
Lemma tableBodyChecked_safe x rest :
  tableBodyChecked (x :: rest) <> Panic NilDereference.
Proof.
  unfold tableBodyChecked.
  set (n0 := mkNode (x :: rest) (x :: rest) None None).
  assert (Hwf0 : wf n0) by done.
  destruct (Child_Done "table" n0 Hwf0) as (n1 & -> & _ & Hwf1). rsimpl.
  destruct (Child_Done "tbody" n1 Hwf1) as (n2 & -> & _ & Hwf2). rsimpl.
  destruct (Child_Done "tr" n2 Hwf2) as (n3 & -> & _ & Hwf3). rsimpl.
  destruct (Child_Done "td" (Sibling "tr" n3)) as (n4 & -> & _ & Hwf4);
    [by apply wf_Sibling|]. rsimpl.
  destruct (Child_Done "table" n4 Hwf4) as (n5 & -> & _ & Hwf5). rsimpl.
  destruct (Child_Done "tbody" n5 Hwf5) as (n6 & -> & _ & Hwf6). rsimpl.
  unfold Err. destruct (err n6) eqn:He; [done|].
  destruct (node n6) as [|y rest'] eqn:Hn; [by apply wf_node in Hn|].
  destruct (negb _); [done|].
  by destruct (Child_Done "tr" n6 Hwf6) as (n7 & -> & _).
Qed.

(** C9 (the shape check on the table body never reads a nil node) does not
    hold of [main]: when the History anchor has no children the first
    [Child] call leaves the current node nil with the error set, and the
    shape check reads [n.Type] of it before [n.Ok()] is consulted. *)
Theorem tbody_check_nil_dereference :
  tableBody [anchor []] = Panic NilDereference
  /\ main emptyHistoryPage = Panic NilDereference
  /\ exit_status (main emptyHistoryPage) = Some 2
  /\ forall attrs rest,
       tableBody (mkHtml ElementNode "a" attrs [] :: rest) = Panic NilDereference.
Proof. vm_compute. done. Qed.

(** ** The properties on sample pages *)

Lemma sticky_error_witness :
  run [OpChild "tbody"; OpSibling "tr"; OpChild "td"] failedCursor
  = Done failedCursor
  /\ ChildText failedCursor = "" /\ Text failedCursor = "".
Proof.
  destruct (sticky_error failedCursor "no sibling tag table"
              [OpChild "tbody"; OpSibling "tr"; OpChild "td"] eq_refl)
    as (_ & Hrun & Htexts).
  - repeat constructor.
  - split; [exact (Hrun 3)|exact Htexts].
Defined.

Lemma sibling_navigation_monotone_witness :
  Sibling "tr" (onRow (stdHeader :: depositRows))
  = mkNode depositRows (tail depositRows) None None
  /\ StronglySorted lt
       (position (next (onRow (stdHeader :: depositRows))) ∘ node
          <$> siblingCalls ["tr"; "tr"] (onRow (stdHeader :: depositRows)))
  /\ Child "td" (onRow depositRows)
     = Done (mkNode (Children (dataRow ["01/02/2015"; "RSU"; "Deposit"; "GOOG"]))
               (tail (Children
                        (dataRow ["01/02/2015"; "RSU"; "Deposit"; "GOOG"])))
               None None).
Proof.
  split; [|split].
  - exact (proj1 (proj1 (sibling_navigation_monotone
                           (onRow (stdHeader :: depositRows)) "tr" eq_refl))).
  - apply (sibling_navigation_monotone
             (onRow (stdHeader :: depositRows)) "tr" eq_refl).
    repeat constructor.
  - exact (proj1 (proj2 (proj2 (sibling_navigation_monotone
                                  (onRow depositRows) "td" eq_refl))
                    _ _ eq_refl)).
Defined.

Lemma checkpoints_lifo_witness :
  run [OpPush; OpChild "td"; OpPush; OpChild "div"; OpPush; OpChild "div";
       OpPop; OpSibling "div"; OpPop; OpPop]
      (Sibling "tr" (onRow depositRows))
  = Done (Sibling "tr" (onRow depositRows)).
Proof.
  refine (proj1 (proj2 (proj2 (proj2 (checkpoints_lifo
            (Sibling "tr" (onRow depositRows))
            [OpChild "td"; OpPush; OpChild "div"; OpPush; OpChild "div";
             OpPop; OpSibling "div"; OpPop] _)) _))).
  2: { split; [done|exact I]. }
  - apply balanced_nav; [done|].
    apply (balanced_pair
             [OpChild "div"; OpPush; OpChild "div"; OpPop; OpSibling "div"] []);
      [|constructor].
    apply balanced_nav; [done|].
    apply (balanced_pair [OpChild "div"] [OpSibling "div"]).
    + apply balanced_nav; [done|constructor].
    + apply balanced_nav; [done|constructor].
Defined.

Lemma more_header_stripping_witness :
  more (Sibling "tr" (onRow exerciseRows))
  = Done (Sibling "tr" (onRow exerciseRows), inl [lot1; lot2]).
Proof.
  assert (Hwf : wf (Sibling "tr" (onRow exerciseRows))).
  { split; [done|exact I]. }
  destruct (headerRow_Done _ Hwf) as (hdr & Hhdr & _).
  pose proof Hhdr as Hhdr'. vm_compute in Hhdr'. injection Hhdr' as <-.
  exact (proj1 (proj2 (proj2
           (more_header_stripping _ _ Hwf Hhdr eq_refl)))).
Defined.

Lemma not_recognized_Bogus : "Bogus" ∉ recognized.
Proof.
  unfold recognized. rewrite !not_elem_of_cons.
  repeat split; [done..|apply not_elem_of_nil].
Defined.

Lemma fan_out_entries_witness :
  (exists l1,
     step stdHeaderMap (onRow exerciseRows) zeroLedger
     = Done (Sibling "tr" (onRow exerciseRows), l1)
     /\ constructed l1 = [lot1 ∪ exerciseCore; lot2 ∪ exerciseCore])
  /\ step stdHeaderMap (onRow emptySaleRows) zeroLedger
     = Fatal EmptyMoreDetails.
Proof.
  split.
  - assert (row (onRow exerciseRows)
            = Done (onRow exerciseRows,
                    inl ["01/02/2015"; "ISO"; "Exer and Hold"; "GOOG"]))
      as Hrow by (vm_compute; reflexivity).
    assert (index ["01/02/2015"; "ISO"; "Exer and Hold"; "GOOG"]
              (headerIndex stdHeaderMap "Action") = Done "Exer and Hold")
      as Hact by (vm_compute; reflexivity).
    assert (more (Sibling "tr" (onRow exerciseRows))
            = Done (Sibling "tr" (onRow exerciseRows), inl [lot1; lot2]))
      as Hmore by (vm_compute; reflexivity).
    assert (coreFields stdHeaderMap
              ["01/02/2015"; "ISO"; "Exer and Hold"; "GOOG"]
            = Some exerciseCore) as Hcore by (vm_compute; reflexivity).
    destruct (proj2 (fan_out_entries stdHeaderMap (onRow exerciseRows)
                       zeroLedger _ _ "Exer and Hold" _ _ exerciseCore
                       eq_refl Hrow Hact (or_introl eq_refl) Hmore)
                ltac:(done) Hcore)
      as (l1 & Hstep & Hcons & _).
    exists l1. split; [exact Hstep|exact Hcons].
  - refine (proj1 (proj1 (fan_out_entries stdHeaderMap (onRow emptySaleRows)
                            zeroLedger (onRow emptySaleRows)
                            ["01/02/2015"; "ISO"; "Sale"; "GOOG"] "Sale"
                            (Sibling "tr" (onRow emptySaleRows)) [] ∅
                            eq_refl _ _ _ _) eq_refl)).
    + vm_compute. reflexivity.
    + vm_compute. reflexivity.
    + by right.
    + vm_compute. reflexivity.
Defined.

(** C3 needs the row to have its core cells: a Sale row with three cells
    under a header whose Symbol column has index 3.  Its details give one
    mapping, and the iteration panics at [values[header[k]]] without
    producing an entry. *)
Lemma fan_out_ragged_row :
  row (onRow raggedSaleRows)
  = Done (onRow raggedSaleRows, inl ["01/02/2015"; "ISO"; "Sale"])
  /\ index ["01/02/2015"; "ISO"; "Sale"] (headerIndex stdHeaderMap "Action")
     = Done "Sale"
  /\ more (Sibling "tr" (onRow raggedSaleRows))
     = Done (Sibling "tr" (onRow raggedSaleRows),
             inl [list_to_map [("Shares", "1")]])
  /\ step stdHeaderMap (onRow raggedSaleRows) zeroLedger
     = Panic (IndexOutOfRange 3 3)
  /\ start raggedSalePage
     = Done (stdHeaderMap, onRow (stdHeader :: raggedSaleRows))
  /\ main raggedSalePage = Panic (IndexOutOfRange 3 3).
Proof. vm_compute. done. Qed.

Lemma deposit_cardinality_witness :
  step stdHeaderMap (onRow depositRows) zeroLedger
  = Done (Sibling "tr" (onRow depositRows), mkLedger [] (Some depositEntry))
  /\ aborts (step stdHeaderMap (onRow twoLotDepositRows) zeroLedger)
  /\ stdout (main (historyPage (stdHeader :: twoLotDepositRows))) = None.
Proof.
  split; [|split]; cycle 2.
  - refine (proj1 (proj2 (proj2 (proj2 (proj1 (deposit_cardinality stdHeaderMap
                            (onRow twoLotDepositRows) zeroLedger
                            (onRow twoLotDepositRows)
                            ["01/02/2015"; "RSU"; "Deposit"; "GOOG"] "Deposit"
                            (Sibling "tr" (onRow twoLotDepositRows))
                            [list_to_map [("Shares", "10")];
                             list_to_map [("Shares", "20")]]
                            eq_refl _ _ _ _) _))
                     (historyPage (stdHeader :: twoLotDepositRows))
                     (onRow (stdHeader :: twoLotDepositRows)) _ _))).
    + vm_compute. reflexivity.
    + vm_compute. reflexivity.
    + by left.
    + vm_compute. reflexivity.
    + simpl. lia.
    + vm_compute. reflexivity.
    + apply reaches_here.
  - refine (proj2 (proj2 (deposit_cardinality stdHeaderMap (onRow depositRows)
                            zeroLedger (onRow depositRows)
                            ["01/02/2015"; "RSU"; "Deposit"; "GOOG"] "Deposit"
                            (Sibling "tr" (onRow depositRows))
                            [list_to_map [("Shares", "10"); ("Price", "5.00")]]
                            eq_refl _ _ _ _)
                     _ (mkLedger [] (Some (rowFields stdHeaderMap
                          ["01/02/2015"; "RSU"; "Deposit"; "GOOG"])))
                     eq_refl _)).
    + vm_compute. reflexivity.
    + vm_compute. reflexivity.
    + by left.
    + vm_compute. reflexivity.
    + vm_compute. reflexivity.
  - refine (proj1 (proj1 (deposit_cardinality stdHeaderMap
                            (onRow twoLotDepositRows) zeroLedger
                            (onRow twoLotDepositRows)
                            ["01/02/2015"; "RSU"; "Deposit"; "GOOG"] "Deposit"
                            (Sibling "tr" (onRow twoLotDepositRows))
                            [list_to_map [("Shares", "10")];
                             list_to_map [("Shares", "20")]]
                            eq_refl _ _ _ _) _)).
    + vm_compute. reflexivity.
    + vm_compute. reflexivity.
    + by left.
    + vm_compute. reflexivity.
    + simpl. lia.
Defined.

Lemma unknown_action_fatal_witness :
  main bogusPage = Fatal (UnknownRowType "Bogus")
  /\ exit_status (main bogusPage) = Some 1 /\ stdout (main bogusPage) = None.
Proof.
  refine (proj2 (proj2 (unknown_action_fatal stdHeaderMap
                          (onRow (tail bogusRows)) zeroLedger
                          (onRow (tail bogusRows))
                          ["01/03/2015"; "y"; "Bogus"; "GOOG"] "Bogus"
                          eq_refl _ _ not_recognized_Bogus))
            bogusPage (onRow (stdHeader :: bogusRows)) _ _).
  - vm_compute. reflexivity.
  - vm_compute. reflexivity.
  - vm_compute. reflexivity.
  - apply (reaches_step stdHeaderMap (onRow bogusRows) zeroLedger
             (onRow bogusRows) zeroLedger); [done| |apply reaches_here].
    vm_compute. reflexivity.
Defined.

(** C7 as first stated (every top-level data row with an unknown Action
    value aborts the run) does not hold: on a page whose rows are a Journal
    row, a data row with the Action value Bogus and a Forced Disbursement
    row, the Bogus row is the [tr] the Journal case steps over, no
    iteration reads it, and [main] ends with exit status 0 and an empty
    array. *)
Lemma unknown_action_skipped :
  row (onRow (tail journalRows))
  = Done (onRow (tail journalRows), inl ["01/03/2015"; "y"; "Bogus"; "GOOG"])
  /\ index ["01/03/2015"; "y"; "Bogus"; "GOOG"]
       (headerIndex stdHeaderMap "Action")
     = Done "Bogus"
  /\ bool_decide ("Bogus" ∈ recognized) = false
  /\ start journalPage = Done (stdHeaderMap, onRow (stdHeader :: journalRows))
  /\ step stdHeaderMap (onRow journalRows) zeroLedger
     = Done (onRow (tail journalRows), zeroLedger)
  /\ main journalPage = Done []
  /\ exit_status (main journalPage) = Some 0
  /\ stdout (main journalPage) = Some [].
Proof. vm_compute. done. Qed.

Lemma missing_action_column_witness :
  headerIndex (makeHeader ["Date"; "Type"; "Symbol"]) "Action" = 0
  /\ classify (makeHeader ["Date"; "Type"; "Symbol"])
       ["01/02/2015"; "Sale"; "GOOG"] (onRow raggedSaleRows) zeroLedger
     = Fatal (UnknownRowType "01/02/2015").
Proof.
  assert (Hnot : "Action" ∉ ["Date"; "Type"; "Symbol"]).
  { rewrite !not_elem_of_cons. repeat split; [done..|apply not_elem_of_nil]. }
  destruct (missing_action_column ["Date"; "Type"; "Symbol"] Hnot)
    as (_ & Hidx & Hclass & _).
  split; [exact Hidx|]. rewrite Hclass. vm_compute. reflexivity.
Defined.

(** ** Further properties: the History anchor *)

Lemma find_app_first {A} (f : A -> bool) (l1 l2 : list A) :
  find f (l1 ++ l2)
  = match find f l1 with Some a => Some a | None => find f l2 end.
Proof.
  induction l1 as [|a l1 IH]; simpl; [done|]. by destruct (f a).
Qed.

Lemma findHistory_find :
  forall x rest,
    match findHistory x rest with
    | Some p =>
        exists z p', p = z :: p' /\ find isHistory (preorder x) = Some z
    | None => find isHistory (preorder x) = None
    end.
Proof.
  fix IH 1. intros [t d a cs] rest. cbn [findHistory preorder find].
  destruct (isHistory (mkHtml t d a cs)); [by eauto|].
  induction cs as [|y cs IHcs]; [done|].
  rewrite find_app_first. specialize (IH y cs).
  destruct (findHistory y cs) as [p|].
  - destruct IH as (z & p' & -> & ->). by eauto.
  - rewrite IH. apply IHcs.
Qed.

Lemma find_split {A} (f : A -> bool) (l : list A) :
  match find f l with
  | Some z =>
      exists before after,
        l = before ++ z :: after /\ f z = true
        /\ Forall (fun y => f y = false) before
  | None => Forall (fun y => f y = false) l
  end.
Proof.
  induction l as [|a l IH]; simpl; [constructor|].
  destruct (f a) eqn:Ha; [by exists [], l|].
  destruct (find f l) as [z|].
  - destruct IH as (before & after & -> & Hz & Hb).
    exists (a :: before), after. repeat split; [done|]. by constructor.
  - by constructor.
Qed.

(** X1.  [findHistory] returns a pointer to the first node of the tree, in
    document order, that is an [a] element with an attribute [name] of
    value [History]; it returns nil exactly when there is none, and [main]
    then ends with the fatal error "no history". *)
Theorem findHistory_first_anchor doc rest :
  match findHistory doc rest with
  | Some p =>
      exists z p' before after,
        p = z :: p' /\ preorder doc = before ++ z :: after
        /\ isHistory z = true
        /\ Forall (fun y => isHistory y = false) before
  | None => Forall (fun y => isHistory y = false) (preorder doc)
  end
  /\ (Forall (fun y => isHistory y = false) (preorder doc) ->
      main doc = Fatal NoHistory /\ exit_status (main doc) = Some 1).
Proof.
  split.
  - pose proof (findHistory_find doc rest) as Hfind.
    pose proof (find_split isHistory (preorder doc)) as Hsplit.
    destruct (findHistory doc rest) as [p|].
    + destruct Hfind as (z & p' & -> & Hz). rewrite Hz in Hsplit.
      destruct Hsplit as (before & after & Hpre & Hh & Hb).
      by exists z, p', before, after.
    + by rewrite Hfind in Hsplit.
  - intros Hnone. pose proof (findHistory_find doc []) as Hfind.
    destruct (findHistory doc []) as [p|] eqn:Hf.
    + destruct Hfind as (z & _ & _ & Hz). apply find_some in Hz as [Hin Hz].
      rewrite Forall_forall in Hnone.
      rewrite (Hnone z) in Hz; [done|]. by apply list_elem_of_In.
    + unfold main, buildLedger, start. by rewrite Hf.
Qed.

Lemma findHistory_first_anchor_witness :
  main (mkHtml DocumentNode "" [] [el "html" [el "head" []; el "body" []]])
  = Fatal NoHistory
  /\ exists p', findHistory depositPage [] = Some (anchor p' :: []).
Proof.
  split.
  - apply (findHistory_first_anchor
             (mkHtml DocumentNode "" [] [el "html" [el "head" []; el "body" []]])
             []).
    repeat constructor.
  - eexists. vm_compute. reflexivity.
Defined.

(** ** Further properties: the extractors *)

Lemma rowValues_labels cells values :
  rowValues cells values
  = if forallb hasLabel cells then inl (values ++ (cellLabel <$> cells))
    else inr "no sibling tag label".
Proof.
  revert values. induction cells as [|c cells IH]; intros values; simpl.
  { by rewrite app_nil_r. }
  unfold hasLabel at 1, cellLabel at 1.
  destruct (scan "label" (kids c)) as [lb|]; simpl; [|done].
  rewrite IH. destruct (forallb hasLabel cells); [|done].
  by rewrite <- app_assoc.
Qed.

Lemma row_on_error n e0 : err n = Some e0 -> row n = Done (n, inl []).
Proof.
  intros He. unfold row, Child. cbn [err Push]. rewrite He. rsimpl.
  rewrite (rowLoop_error _ _ _ e0) by done. by rsimpl.
Qed.

(** X2.  [row] leaves the cursor where it was and returns the trimmed text
    of the [label] of every [td] of the row, in order; when some [td] has
    no [label] it returns the error of the missing label and no values.  A
    row without cells gives the empty list and no error, and so does a
    cursor that already holds an error: [row] does not report it. *)
Theorem row_labels n :
  wf n ->
  row n
  = Done (n, match err n with
             | Some _ => inl []
             | None =>
                 if forallb hasLabel (rowCells (node n))
                 then inl (cellLabel <$> rowCells (node n))
                 else inr "no sibling tag label"
             end).
Proof.
  intros Hwf. destruct (err n) as [e0|] eqn:He.
  - by apply (row_on_error n e0).
  - rewrite (row_spec n Hwf He). by rewrite rowValues_labels.
Qed.

Lemma row_labels_witness :
  row (onRow depositRows)
  = Done (onRow depositRows, inl ["01/02/2015"; "RSU"; "Deposit"; "GOOG"])
  /\ row (Sibling "tr" (onRow depositRows))
     = Done (Sibling "tr" (onRow depositRows), inr "no sibling tag label")
  /\ row failedCursor = Done (failedCursor, inl []).
Proof.
  split; [|split].
  - refine (row_labels (onRow depositRows) _). split; [done|exact I].
  - refine (row_labels (Sibling "tr" (onRow depositRows)) _).
    split; [done|exact I].
  - refine (row_labels failedCursor _). split; [done|exact I].
Defined.

(** X3.  What the loop of [main] does with a row that is not a data row: a
    [tr] without any [td] makes it index an empty slice, a runtime panic;
    a [tr] with a [td] that has no [label] (a details row read as a data
    row) is the fatal error "bad row".  Either way [main] writes
    nothing. *)
Theorem malformed_row_aborts header n l :
  wf n -> Ok n = true ->
  (rowCells (node n) = [] ->
     step header n l = Panic (IndexOutOfRange (headerIndex header "Action") 0))
  /\ (forallb hasLabel (rowCells (node n)) = false ->
        step header n l = Fatal (BadRow "no sibling tag label"))
  /\ (rowCells (node n) = [] \/ forallb hasLabel (rowCells (node n)) = false ->
      forall doc hn,
        start doc = Done (header, hn) ->
        reaches header (Sibling "tr" hn, zeroLedger) (n, l) ->
        aborts (main doc) /\ stdout (main doc) = None).
Proof.
  intros Hwf Hok. pose proof Hok as He. apply Ok_true in He.
  pose proof (row_labels n Hwf) as Hrow. rewrite He in Hrow.
  assert (H1 : rowCells (node n) = [] ->
               step header n l
               = Panic (IndexOutOfRange (headerIndex header "Action") 0)).
  { intros Hnil. rewrite Hnil in Hrow. simpl in Hrow.
    rewrite (step_row _ _ _ _ _ Hrow). unfold index.
    by rewrite lookup_nil. }
  assert (H2 : forallb hasLabel (rowCells (node n)) = false ->
               step header n l = Fatal (BadRow "no sibling tag label")).
  { intros Hbad. rewrite Hbad in Hrow. unfold step. by rewrite Hrow. }
  split; [done|]. split; [done|].
  intros Hcase doc hn Hstart Hreach.
  pose proof (main_step_aborts _ _ _ _ _ Hstart Hreach Hok) as Hmain.
  assert (aborts (main doc)) as Hab.
  { destruct Hcase as [Hc|Hc].
    - rewrite (H1 Hc) in Hmain. right. by eexists.
    - rewrite (H2 Hc) in Hmain. left. by eexists. }
  split; [done|]. by apply aborts_status.
Qed.

Lemma malformed_row_aborts_witness :
  step stdHeaderMap (onRow [el "tr" []]) zeroLedger
  = Panic (IndexOutOfRange 2 0)
  /\ step stdHeaderMap (Sibling "tr" (onRow depositRows)) zeroLedger
     = Fatal (BadRow "no sibling tag label").
Proof.
  split.
  - refine (proj1 (malformed_row_aborts stdHeaderMap (onRow [el "tr" []])
                     zeroLedger _ eq_refl) eq_refl).
    split; [done|exact I].
  - refine (proj1 (proj2 (malformed_row_aborts stdHeaderMap
                            (Sibling "tr" (onRow depositRows)) zeroLedger
                            _ eq_refl)) eq_refl).
    split; [done|exact I].
Defined.

Lemma panelEntries_cells rows :
  panelEntries rows = foldl (fun s c => panelCell c s) ∅ (panelCells rows).
Proof.
  unfold panelEntries, panelCells. generalize (∅ : Entry).
  induction rows as [|r rows IH]; intros m; [done|].
  cbn [foldl mbind list_bind]. rewrite foldl_app, IH. done.
Qed.

Lemma panelCell_fold_dom cells (m : Entry) k :
  k ∈ dom (foldl (fun s c => panelCell c s) m cells)
  <-> k ∈ dom m \/ (k <> "" /\ exists c, c ∈ cells /\ panelKey c = k).
Proof.
  revert m. induction cells as [|c cells IH]; intros m; simpl.
  { split; [by left|]. intros [?|(_ & c & Hc & _)]; [done|].
    by apply elem_of_nil in Hc. }
  rewrite IH. unfold panelCell.
  destruct (String.eqb_spec (panelKey c) "") as [Heq|Hne].
  - split; intros [?|(Hk & c' & Hc' & Hkey)]; auto.
    + right. split; [done|]. exists c'. split; [by right|done].
    + apply elem_of_cons in Hc' as [->|Hc']; [congruence|].
      right. split; [done|]. by exists c'.
  - rewrite dom_insert_L, elem_of_union, elem_of_singleton.
    split.
    + intros [[->|?]|(Hk & c' & Hc' & Hkey)]; auto.
      * right. split; [done|]. exists c. split; [by left|done].
      * right. split; [done|]. exists c'. split; [by right|done].
    + intros [?|(Hk & c' & Hc' & Hkey)]; auto.
      apply elem_of_cons in Hc' as [->|Hc']; [by left; left|].
      right. split; [done|]. by exists c'.
Qed.

Lemma panelCell_fold_other cells (m : Entry) k :
  k ∉ (panelKey <$> cells) ->
  foldl (fun s c => panelCell c s) m cells !! k = m !! k.
Proof.
  revert m. induction cells as [|c cells IH]; intros m Hnot; [done|].
  rewrite fmap_cons in Hnot. apply not_elem_of_cons in Hnot as [Hne Hnot].
  simpl. rewrite IH by done. unfold panelCell.
  destruct (String.eqb _ ""); [done|]. by rewrite lookup_insert_ne.
Qed.

Lemma panelCell_fold_lookup cells (m : Entry) c :
  NoDup (panelKey <$> cells) -> c ∈ cells -> panelKey c <> "" ->
  foldl (fun s c => panelCell c s) m cells !! panelKey c
  = Some (panelValue c).
Proof.
  revert m. induction cells as [|c0 cells IH]; intros m Hnd Hin Hne.
  { by apply elem_of_nil in Hin. }
  rewrite fmap_cons in Hnd. apply NoDup_cons in Hnd as [Hnot Hnd]. simpl.
  apply elem_of_cons in Hin as [->|Hin]; [|by apply IH].
  rewrite panelCell_fold_other by done. unfold panelCell.
  destruct (String.eqb_spec (panelKey c0) ""); [done|].
  by rewrite lookup_insert_eq.
Qed.

(** X4.  [more1] leaves the cursor where it was and returns the error of
    the failed descent or one mapping for the whole panel: its keys are
    exactly the non-empty trimmed texts of the [td] cells of the [tr] rows
    of the table body, cells with an empty text are skipped, and when the
    keys are distinct each maps to the text found from the cell's first
    [b] child. *)
Theorem more1_panel n tb :
  wf n -> detailsTable (Push n) = Done tb ->
  let cells := panelCells (matches "tr" (kids (node tb))) in
  match err tb with
  | Some e0 => more1 n = Done (n, inr e0)
  | None =>
      exists panel,
        more1 n = Done (n, inl panel)
        /\ (forall k, k ∈ dom panel
                      <-> k <> "" /\ exists c, c ∈ cells /\ panelKey c = k)
        /\ (NoDup (panelKey <$> cells) ->
            forall c, c ∈ cells -> panelKey c <> "" ->
                      panel !! panelKey c = Some (panelValue c))
  end.
Proof.
  intros Hwf Htab cells. rewrite (more1_spec n tb Hwf Htab).
  destruct (err tb); [done|].
  exists (panelEntries (matches "tr" (kids (node tb)))). split; [done|].
  rewrite panelEntries_cells. fold cells. split.
  - intros k. rewrite panelCell_fold_dom, dom_empty_L. set_solver.
  - intros Hnd c Hc Hne. by apply panelCell_fold_lookup.
Qed.

Lemma more1_panel_witness :
  exists panel,
    more1 (Sibling "tr" (onRow lapseRows))
    = Done (Sibling "tr" (onRow lapseRows), inl panel)
    /\ "Shares Lapsed" ∈ dom panel
    /\ ("" ∈ dom panel -> False).
Proof.
  assert (Hwf : wf (Sibling "tr" (onRow lapseRows))).
  { split; [done|exact I]. }
  destruct (detailsTable_Done _ (wf_Push _ Hwf)) as (tb & Htab & _).
  pose proof Htab as Htab'. vm_compute in Htab'. injection Htab' as <-.
  destruct (more1_panel _ _ Hwf Htab) as (panel & Hm & Hdom & _).
  exists panel. split; [exact Hm|]. split.
  - apply Hdom. split; [done|]. eexists. split.
    + eapply (list_elem_of_lookup_2 _ 0). reflexivity.
    + reflexivity.
  - intros [Hne _]%Hdom. by apply Hne.
Defined.

Lemma errAfter_Sibling start errs tag n :
  ("no sibling tag " +:+ tag) ∈ errs ->
  errAfter start errs (err n) -> errAfter start errs (err (Sibling tag n)).
Proof.
  intros Hin Hn. unfold Sibling. destruct (err n) eqn:He; [by rewrite He|].
  destruct (scan tag (next n)); simpl; [done|].
  destruct Hn as [<-|[-> (? & ? & _)]]; [|done].
  right. split; [done|]. by eexists.
Qed.

Lemma errAfter_Child start errs tag n n1 :
  ("no sibling tag " +:+ tag) ∈ errs ->
  Child tag n = Done n1 ->
  errAfter start errs (err n) -> errAfter start errs (err n1).
Proof.
  intros Hin. unfold Child. destruct (err n) eqn:He.
  { intros [= <-]. by rewrite He. }
  destruct (node n); [done|]. simpl. intros [= <-] Hn.
  apply errAfter_Sibling; [done|]. simpl.
  destruct Hn as [<-|[-> (? & ? & _)]]; [by left|done].
Qed.

Lemma headerRow_err n hdr :
  headerRow n = Done hdr -> errAfter (err n) descentErrors (err hdr).
Proof.
  unfold headerRow, detailsTable.
  assert (H0 : errAfter (err n) descentErrors (err (Push n))) by (by left).
  destruct (Child "td" (Push n)) as [n1| | |] eqn:H1; rsimpl; try done.
  eapply errAfter_Child in H0; [|shelve|exact H1].
  destruct (Child "div" n1) as [n2| | |] eqn:H2; rsimpl; try done.
  eapply errAfter_Child in H0; [|shelve|exact H2].
  destruct (Child "div" n2) as [n3| | |] eqn:H3; rsimpl; try done.
  eapply errAfter_Child in H0; [|shelve|exact H3].
  destruct (Child "table" n3) as [n4| | |] eqn:H4; rsimpl; try done.
  eapply errAfter_Child in H0; [|shelve|exact H4].
  eapply (errAfter_Sibling _ _ "table") in H0; [|shelve].
  destruct (Child "tbody" (Sibling "table" n4)) as [n5| | |] eqn:H5;
    rsimpl; try done.
  eapply errAfter_Child in H0; [|shelve|exact H5].
  intros H6. eapply errAfter_Child in H0; [exact H0|shelve|exact H6].
  Unshelve.
  all: unfold descentErrors; simpl;
    rewrite !elem_of_cons; auto 10.
Qed.

(** X5.  [more] never ends the run itself: it returns the cursor it was
    given with a list of mappings or an error.  The error is the one the
    cursor already held, or, from a cursor without error, the "no sibling
    tag" error of the first element missing on the way td, div, div,
    table, next table, tbody, tr; mappings come only from a cursor without
    error. *)
Theorem more_outcome n :
  wf n ->
  exists r,
    more n = Done (n, r)
    /\ match r with
       | inl _ => err n = None
       | inr e0 => err n = Some e0 \/ (err n = None /\ e0 ∈ descentErrors)
       end.
Proof.
  intros Hwf. destruct (headerRow_Done n Hwf) as (hdr & Hrow & _).
  eexists. split; [by apply more_spec|].
  pose proof (headerRow_err n hdr Hrow) as Herr.
  destruct (err hdr) as [e0|] eqn:He.
  - destruct Herr as [Heq|[Hn (e1 & [= <-] & Hin)]]; [by left|by right].
  - destruct Herr as [Heq|[Hn (e1 & ? & _)]]; [done|done].
Qed.

Lemma more_outcome_witness :
  more (Sibling "tr" (onRow brokenDetailsRows))
  = Done (Sibling "tr" (onRow brokenDetailsRows), inr "no sibling tag div")
  /\ "no sibling tag div" ∈ descentErrors.
Proof.
  assert (Hwf : wf (Sibling "tr" (onRow brokenDetailsRows))).
  { split; [done|exact I]. }
  destruct (more_outcome _ Hwf) as (r & Hm & Hr).
  pose proof Hm as Hm'. vm_compute in Hm'. injection Hm' as <-.
  split; [exact Hm|]. destruct Hr as [Hr|[_ Hr]]; [done|exact Hr].
Defined.

(** ** Further properties: the ledger over a run *)

Lemma Write_Done k v l l1 :
  Write k v l = Done l1 -> entries l1 = entries l.
Proof. unfold Write. destruct (e l); [|done]. by intros [= <-]. Qed.

Lemma writeRow_entries cols values l l1 :
  writeRow cols values l = Done l1 -> entries l1 = entries l.
Proof.
  revert l. induction cols as [|[k i] cols IH]; intros l; simpl.
  { by intros [= <-]. }
  destruct (index values i) as [v| | |]; rsimpl; try done.
  destruct (Write k v l) as [l0| | |] eqn:Hw; rsimpl; try done.
  intros Hrun. rewrite (IH _ Hrun). by eapply Write_Done.
Qed.

Lemma writeAll_entries kvs l l1 :
  writeAll kvs l = Done l1 -> entries l1 = entries l.
Proof.
  revert l. induction kvs as [|[k v] kvs IH]; intros l; simpl.
  { by intros [= <-]. }
  destruct (Write k v l) as [l0| | |] eqn:Hw; rsimpl; try done.
  intros Hrun. rewrite (IH _ Hrun). by eapply Write_Done.
Qed.

Lemma writeCore_entries keys header values l l1 :
  writeCore keys header values l = Done l1 -> entries l1 = entries l.
Proof.
  revert l. induction keys as [|k keys IH]; intros l; simpl.
  { by intros [= <-]. }
  destruct (index values _) as [v| | |]; rsimpl; try done.
  destruct (Write k v l) as [l0| | |] eqn:Hw; rsimpl; try done.
  intros Hrun. rewrite (IH _ Hrun). by eapply Write_Done.
Qed.

Lemma Next_entries l : entries (Next l) = constructed l.
Proof. by rewrite Next_constructed. Qed.

Lemma constructed_nonempty_all l :
  Forall (fun m : Entry => m <> ∅) (entries l) ->
  Forall (fun m : Entry => m <> ∅) (constructed l).
Proof.
  intros Hall. unfold constructed, pending. apply Forall_app. split; [done|].
  destruct (e l) as [m|]; [|constructor].
  destruct (bool_decide (0 < size m)) eqn:Hsz; [|constructor].
  apply bool_decide_eq_true in Hsz. constructor; [|constructor].
  apply map_size_non_empty_iff. lia.
Qed.

Lemma entries_prefix_constructed l : entries l `prefix_of` constructed l.
Proof. by exists (pending l). Qed.

Lemma advances_refl l : advances l l.
Proof. split; [by left|done]. Qed.

Lemma advances_committed l l1 :
  entries l1 = constructed l -> advances l l1.
Proof.
  intros Heq. split; [right; by rewrite Heq|].
  rewrite Heq. apply constructed_nonempty_all.
Qed.

Lemma advances_trans l l1 l2 :
  advances l l1 -> advances l1 l2 -> advances l l2.
Proof.
  intros [H1 I1] [H2 I2]. split; [|auto].
  destruct H1 as [->|H1]; [done|]. right.
  destruct H2 as [->|H2]; [done|].
  transitivity (entries l1); [done|].
  transitivity (constructed l1); [apply entries_prefix_constructed|done].
Qed.

Lemma advances_entries l l1 :
  advances l l1 -> entries l `prefix_of` entries l1.
Proof.
  intros [[->|H] _]; [done|].
  transitivity (constructed l); [apply entries_prefix_constructed|done].
Qed.

Lemma fanOut_advances header values ms l l1 :
  fanOut header values ms l = Done l1 -> advances l l1.
Proof.
  revert l. induction ms as [|m ms IH]; intros l; cbn [fanOut].
  { intros [= <-]. apply advances_refl. }
  destruct (writeCore coreKeys header values (Next l)) as [la| | |] eqn:Ha;
    rsimpl; try done.
  destruct (writeAll (map_to_list m) la) as [lb| | |] eqn:Hb; rsimpl; try done.
  intros Hrun. apply (advances_trans _ lb); [|by apply IH].
  apply advances_committed.
  rewrite (writeAll_entries _ _ _ Hb), (writeCore_entries _ _ _ _ _ Ha).
  apply Next_entries.
Qed.

Lemma dispatch_advances header values action n l n1 l1 :
  dispatch header values action n l = Done (n1, l1) -> advances l l1.
Proof.
  unfold dispatch, caseLapse, caseDeposit, caseExercise.
  destruct (String.eqb action "Lapse").
  { destruct (writeRow _ values (Next l)) as [la| | |] eqn:Ha; rsimpl; try done.
    destruct (more1 _) as [[n2 [panel|e0]]| | |]; rsimpl; try done.
    destruct (writeAll _ la) as [lb| | |] eqn:Hb; rsimpl; try done.
    intros [= _ <-]. apply advances_committed.
    rewrite (writeAll_entries _ _ _ Hb), (writeRow_entries _ _ _ _ Ha).
    apply Next_entries. }
  destruct (_ || _).
  { destruct (writeRow _ values (Next l)) as [la| | |] eqn:Ha; rsimpl; try done.
    destruct (more _) as [[n2 [ms|e0]]| | |]; rsimpl; try done.
    destruct (negb _); [done|]. destruct (ms !! 0); [|done].
    destruct (writeAll _ la) as [lb| | |] eqn:Hb; rsimpl; try done.
    intros [= _ <-]. apply advances_committed.
    rewrite (writeAll_entries _ _ _ Hb), (writeRow_entries _ _ _ _ Ha).
    apply Next_entries. }
  destruct (_ || _).
  { destruct (more _) as [[n2 [ms|e0]]| | |]; rsimpl; try done.
    destruct (_ =? _)%nat; [done|].
    destruct (fanOut header values ms l) as [lb| | |] eqn:Hb; rsimpl; try done.
    intros [= _ <-]. by eapply fanOut_advances. }
  destruct (String.eqb action "Journal").
  { intros [= _ <-]. apply advances_refl. }
  destruct (String.eqb action "Forced Disbursement"); [|done].
  intros [= _ <-]. apply advances_refl.
Qed.

Lemma step_advances header n l n1 l1 :
  step header n l = Done (n1, l1) -> advances l l1.
Proof.
  unfold step, classify.
  destruct (row n) as [[n0 [values|e0]]| | |]; rsimpl; try done.
  destruct (index values _) as [action| | |]; rsimpl; try done.
  apply dispatch_advances.
Qed.

Lemma forOk_advances header fuel n l n1 l1 :
  forOk fuel "tr" (step header) n l = Done (n1, l1) -> advances l l1.
Proof.
  revert n l. induction fuel as [|fuel IH]; intros n l; simpl.
  { destruct (Ok n); [done|]. intros [= _ <-]. apply advances_refl. }
  destruct (Ok n); [|intros [= _ <-]; apply advances_refl].
  destruct (step header n l) as [[n0 l0]| | |] eqn:Hstep; rsimpl; try done.
  intros Hrun. apply (advances_trans _ l0);
    [by eapply step_advances|by eapply IH].
Qed.

Lemma reaches_advances header x y :
  reaches header x y -> advances x.2 y.2.
Proof.
  induction 1 as [|n l n1 l1 y Hok Hstep _ IH]; [apply advances_refl|].
  apply (advances_trans _ l1); [by eapply step_advances|exact IH].
Qed.

Lemma main_Done_ledger doc header hn n l out :
  start doc = Done (header, hn) ->
  reaches header (Sibling "tr" hn, zeroLedger) (n, l) ->
  main doc = Done out ->
  exists lf, out = entries lf /\ advances l lf.
Proof.
  intros Hstart Hreach. rewrite (main_from _ _ _ _ _ Hstart Hreach).
  destruct (rows header n l) as [[nf lf]| | |] eqn:Hrows; rsimpl; try done.
  intros [= <-]. exists lf. split; [done|]. by eapply forOk_advances.
Qed.

(** X6.  No object of the array [main] writes is empty: [Next] commits the
    entry in progress only when it has a key, and nothing else adds to
    the committed entries. *)
Theorem main_no_empty_object doc out :
  main doc = Done out -> Forall (fun m : Entry => m <> ∅) out.
Proof.
  intros Hmain.
  destruct (start doc) as [[header hn]| | |] eqn:Hstart;
    try (by unfold main, buildLedger in Hmain; rewrite Hstart in Hmain).
  destruct (main_Done_ledger doc header hn _ _ out Hstart
              (reaches_here _ _) Hmain) as (lf & -> & _ & Hall).
  apply Hall. constructor.
Qed.

(** X7.  What the ledger holds at the top of an iteration is final: when
    [main] ends with an array, the entries committed by then stand at its
    front unchanged, and the entry in progress either follows them
    unchanged or is the one entry missing, the array being just the
    committed entries. *)
Theorem committed_entries_are_final doc header hn n l out :
  start doc = Done (header, hn) ->
  reaches header (Sibling "tr" hn, zeroLedger) (n, l) ->
  main doc = Done out ->
  entries l `prefix_of` out
  /\ (out = entries l \/ constructed l `prefix_of` out).
Proof.
  intros Hstart Hreach Hmain.
  destruct (main_Done_ledger _ _ _ _ _ _ Hstart Hreach Hmain)
    as (lf & -> & Hadv).
  split; [by apply advances_entries|].
  destruct Hadv as [[->|Hpre] _]; [by left|by right].
Qed.

Lemma main_mixedPage :
  main mixedPage = Done [lot1 ∪ exerciseCore; lot2 ∪ exerciseCore].
Proof. vm_compute. reflexivity. Qed.

Lemma main_no_empty_object_witness :
  Forall (fun m : Entry => m <> ∅) [lot1 ∪ exerciseCore; lot2 ∪ exerciseCore].
Proof. exact (main_no_empty_object mixedPage _ main_mixedPage). Defined.

Lemma committed_entries_are_final_witness :
  entries afterExercise `prefix_of` [lot1 ∪ exerciseCore; lot2 ∪ exerciseCore]
  /\ ([lot1 ∪ exerciseCore; lot2 ∪ exerciseCore] = entries afterExercise
      \/ constructed afterExercise
         `prefix_of` [lot1 ∪ exerciseCore; lot2 ∪ exerciseCore]).
Proof.
  refine (committed_entries_are_final mixedPage stdHeaderMap
            (onRow (stdHeader :: mixedRows))
            (onRow (drop 2 mixedRows)) afterExercise _ _ _ main_mixedPage).
  - vm_compute. reflexivity.
  - apply (reaches_step stdHeaderMap (onRow mixedRows) zeroLedger
             (Sibling "tr" (onRow mixedRows)) afterExercise);
      [done| |apply reaches_here].
    vm_compute. reflexivity.
Defined.

(** ** Further properties: the cases of the classifier *)

(** X8.  A Lapse row commits the entry in progress and starts a new one
    with all the primary-row fields; the panel [more1] reads from the next
    [tr] is laid over them, a panel key winning over a primary field of
    the same name.  When [more1] returns an error the run is fatal with
    that error. *)
Theorem lapse_entry header n l n1 values n2 r l1 :
  Ok n = true -> row n = Done (n1, inl values) ->
  index values (headerIndex header "Action") = Done "Lapse" ->
  writeRow (map_to_list header) values (Next l) = Done l1 ->
  more1 (Sibling "tr" n1) = Done (n2, r) ->
  l1 = mkLedger (constructed l) (Some (rowFields header values))
  /\ match r with
     | inl panel =>
         step header n l
         = Done (n2, mkLedger (constructed l)
                       (Some (panel ∪ rowFields header values)))
     | inr e0 =>
         step header n l = Fatal (FatalErr e0)
         /\ forall doc hn,
              start doc = Done (header, hn) ->
              reaches header (Sibling "tr" hn, zeroLedger) (n, l) ->
              main doc = Fatal (FatalErr e0)
     end.
Proof.
  intros Hok Hrow Hact Hw Hmore.
  assert (Hstep : step header n l = caseLapse header values n1 l).
  { by rewrite (step_row _ _ _ _ _ Hrow), Hact. }
  unfold caseLapse in Hstep. rewrite Hw, Hmore in Hstep.
  cbn [mbind result_bind] in Hstep.
  rewrite Next_constructed in Hw.
  destruct (writeRow_header header values
              (mkLedger (constructed l) (Some ∅)) ∅ eq_refl)
    as [[Hw' _]|(k & i & _ & _ & Hw')]; rewrite Hw in Hw'; [|done].
  injection Hw' as ->. rewrite (right_id_L ∅ (∪)) in *.
  split; [done|]. destruct r as [panel|e0].
  - rewrite Hstep.
    rewrite (writeAll_map panel _ (rowFields header values)) by done.
    by rsimpl.
  - split; [done|]. intros doc hn Hstart Hreach.
    pose proof (main_step_aborts _ _ _ _ _ Hstart Hreach Hok) as Hmain.
    by rewrite Hstep in Hmain.
Qed.

Lemma lapse_entry_witness :
  step stdHeaderMap (onRow lapseRows) zeroLedger
  = Done (Sibling "tr" (onRow lapseRows),
          mkLedger []
            (Some (lapsePanel
                   ∪ rowFields stdHeaderMap
                       ["01/02/2015"; "RSU"; "Lapse"; "GOOG"]))).
Proof.
  refine (proj2 (lapse_entry stdHeaderMap (onRow lapseRows) zeroLedger
                   (onRow lapseRows) ["01/02/2015"; "RSU"; "Lapse"; "GOOG"]
                   (Sibling "tr" (onRow lapseRows)) (inl lapsePanel)
                   (mkLedger [] (Some (rowFields stdHeaderMap
                      ["01/02/2015"; "RSU"; "Lapse"; "GOOG"])))
                   eq_refl _ _ _ _)).
  - vm_compute. reflexivity.
  - vm_compute. reflexivity.
  - vm_compute. reflexivity.
  - vm_compute. reflexivity.
Defined.

Lemma more_on_error n e0 : err n = Some e0 -> more n = Done (n, inr e0).
Proof.
  destruct n as [c x o s]. simpl. by intros ->.
Qed.

Lemma more1_on_error n e0 : err n = Some e0 -> more1 n = Done (n, inr e0).
Proof.
  destruct n as [c x o s]. simpl. by intros ->.
Qed.

Lemma forOk_done {S} tag (body : Node -> S -> result (Node * S)) n s :
  Ok n = false -> forall fuel, forOk fuel tag body n s = Done (n, s).
Proof. intros Hok fuel. by apply forOk_error. Qed.

(** X9.  The details row is taken on trust to follow.  When no [tr]
    follows a row, the failed [Sibling] leaves its error in the cursor: an
    Exer and Hold or Sale row then ends the run with the fatal error "no
    sibling tag tr", and so does a Deposit, Forced Quick Sell or Lapse row
    (whose cells cover the header columns); after a Journal row the loop
    just ends, with the ledger as it was and no error reported. *)
Theorem missing_details_row header n l n1 values action :
  Ok n = true -> row n = Done (n1, inl values) ->
  index values (headerIndex header "Action") = Done action ->
  err n1 = None -> scan "tr" (next n1) = None ->
  (action = "Exer and Hold" \/ action = "Sale" ->
     step header n l = Fatal (FatalErr "no sibling tag tr"))
  /\ (action = "Deposit" \/ action = "Forced Quick Sell" \/ action = "Lapse" ->
      (forall k i, header !! k = Some i -> i < length values) ->
      step header n l = Fatal (FatalErr "no sibling tag tr"))
  /\ (action = "Journal" ->
      exists nf, rows header n l = Done (nf, l)
                 /\ err nf = Some "no sibling tag tr").
Proof.
  intros Hok Hrow Hact He Hscan.
  pose proof (Sibling_missing "tr" n1 He Hscan) as Hsib.
  set (nf := mkNode (node n1) (next n1) (Some ("no sibling tag " +:+ "tr"))
               (stack n1)) in *.
  assert (Hstep : step header n l = dispatch header values action n1 l).
  { by rewrite (step_row _ _ _ _ _ Hrow), Hact. }
  split; [|split].
  - intros Hcase. rewrite Hstep.
    assert (dispatch header values action n1 l
            = caseExercise header values n1 l) as ->
      by (by destruct Hcase as [-> | ->]).
    unfold caseExercise. cbv zeta. rewrite Hsib.
    by rewrite (more_on_error nf "no sibling tag tr").
  - intros Hcase Hrange. rewrite Hstep.
    destruct (writeRow_header header values (Next l) ∅) as
      [[Hw _]|(k & i & Hk & Hge & _)];
      [by rewrite Next_constructed| |specialize (Hrange _ _ Hk); lia].
    destruct Hcase as [->|[->| ->]].
    + change (dispatch header values "Deposit" n1 l)
        with (caseDeposit header values n1 l).
      unfold caseDeposit. cbv zeta. rewrite Hw, Hsib. rsimpl.
      by rewrite (more_on_error nf "no sibling tag tr").
    + change (dispatch header values "Forced Quick Sell" n1 l)
        with (caseDeposit header values n1 l).
      unfold caseDeposit. cbv zeta. rewrite Hw, Hsib. rsimpl.
      by rewrite (more_on_error nf "no sibling tag tr").
    + change (dispatch header values "Lapse" n1 l)
        with (caseLapse header values n1 l).
      unfold caseLapse. cbv zeta. rewrite Hw, Hsib. rsimpl.
      by rewrite (more1_on_error nf "no sibling tag tr").
  - intros ->. exists nf. split; [|done].
    change (dispatch header values "Journal" n1 l)
      with (Done (Sibling "tr" n1, l) : result (Node * Ledger)) in Hstep.
    unfold rows, fuelOf. cbn [forOk]. rewrite Hok, Hstep. rsimpl.
    rewrite Hsib. rewrite (Sibling_err "tr" nf "no sibling tag tr") by done.
    by apply forOk_error.
Qed.

Lemma missing_details_row_witness :
  step stdHeaderMap (onRow lastSaleRows) zeroLedger
  = Fatal (FatalErr "no sibling tag tr")
  /\ exists nf, rows stdHeaderMap (onRow lastJournalRows) zeroLedger
                = Done (nf, zeroLedger)
                /\ err nf = Some "no sibling tag tr".
Proof.
  split.
  - refine (proj1 (missing_details_row stdHeaderMap (onRow lastSaleRows)
                     zeroLedger (onRow lastSaleRows)
                     ["01/02/2015"; "ISO"; "Sale"; "GOOG"] "Sale"
                     eq_refl _ _ eq_refl eq_refl) (or_intror eq_refl)).
    + vm_compute. reflexivity.
    + vm_compute. reflexivity.
  - refine (proj2 (proj2 (missing_details_row stdHeaderMap
                            (onRow lastJournalRows) zeroLedger
                            (onRow lastJournalRows)
                            ["01/02/2015"; "x"; "Journal"; "GOOG"] "Journal"
                            eq_refl _ _ eq_refl eq_refl)) eq_refl).
    + vm_compute. reflexivity.
    + vm_compute. reflexivity.
Defined.

(** ** Further properties: the header mapping *)

Lemma headerLoop_Some i vals (header : gmap string nat) k j :
  headerLoop i vals header !! k = Some j
  <-> (exists p, j = i + p /\ lastIndex vals k p)
      \/ ((k ∉ vals) /\ header !! k = Some j).
Proof.
  revert i header. induction vals as [|v vals IH]; intros i header; simpl.
  { split; [intros H; right; split; [apply not_elem_of_nil|done]|].
    intros [(p & _ & Hp & _)|[_ H]]; [done|done]. }
  rewrite IH. split.
  - intros [(p & -> & Hp & Hlast)|[Hnot Hk]].
    + left. exists (S p). split; [lia|]. split; [done|].
      intros [|q] Hq; [lia|]. simpl. apply Hlast. lia.
    + destruct (decide (v = k)) as [->|Hne].
      * rewrite lookup_insert_eq in Hk. injection Hk as <-.
        left. exists 0. split; [lia|]. split; [done|].
        intros [|q] Hq; [lia|]. simpl. intros Hq'.
        apply Hnot. by eapply list_elem_of_lookup_2.
      * rewrite lookup_insert_ne in Hk by done. right.
        split; [|done]. apply not_elem_of_cons. split; [done|done].
  - intros [(p & -> & Hp & Hlast)|[Hnot Hk]].
    + destruct p as [|p].
      * simpl in Hp. injection Hp as ->. right. split.
        -- intros [q Hq]%list_elem_of_lookup_1.
           apply (Hlast (S q)); [lia|done].
        -- rewrite lookup_insert_eq. f_equal. lia.
      * left. exists p. split; [lia|]. split; [done|].
        intros q Hq. apply (Hlast (S q)). lia.
    + apply not_elem_of_cons in Hnot as [Hne Hnot]. right.
      split; [done|]. by rewrite lookup_insert_ne.
Qed.

(** X10.  The header mapping sends a label to the index of the last cell
    of the header row that carries it: a repeated label keeps only its
    last column, and a label of no cell is absent. *)
Theorem makeHeader_last_index headerVals k j :
  makeHeader headerVals !! k = Some j <-> lastIndex headerVals k j.
Proof.
  unfold makeHeader. rewrite headerLoop_Some. split.
  - intros [(p & -> & Hp)|[_ H]]; [done|by rewrite lookup_empty in H].
  - intros Hj. left. by exists j.
Qed.

Lemma makeHeader_bound headerVals k i :
  makeHeader headerVals !! k = Some i -> i < length headerVals.
Proof.
  unfold makeHeader. rewrite headerLoop_Some.
  intros [(p & -> & Hp & _)|[_ H]]; [|by rewrite lookup_empty in H].
  by apply lookup_lt_Some in Hp.
Qed.

Lemma makeHeader_last headerVals :
  headerVals <> [] ->
  exists k, makeHeader headerVals !! k = Some (length headerVals - 1).
Proof.
  intros Hne. destruct (last headerVals) as [k|] eqn:Hlast; cycle 1.
  { by apply last_None in Hlast. }
  exists k. unfold makeHeader. rewrite headerLoop_Some. left.
  exists (length headerVals - 1). split; [done|]. split.
  - rewrite last_lookup in Hlast. by replace (length headerVals - 1)
      with (pred (length headerVals)) by lia.
  - intros q Hq. rewrite (lookup_ge_None_2 headerVals q); [done|lia].
Qed.

Lemma makeHeader_dom headerVals :
  dom (makeHeader headerVals) = list_to_set headerVals.
Proof.
  unfold makeHeader. generalize 0.
  assert (H : forall vals i (header : gmap string nat),
             dom (headerLoop i vals header) = list_to_set vals ∪ dom header).
  { induction vals as [|v vals IH]; intros i header; simpl.
    - set_solver.
    - rewrite IH, dom_insert_L. set_solver. }
  intros i. rewrite H. set_solver.
Qed.

Lemma rowFields_dom header values :
  (forall k i, header !! k = Some i -> i < length values) ->
  dom (rowFields header values) = dom header.
Proof.
  intros Hall. apply set_eq. intros k. rewrite !elem_of_dom. unfold rowFields.
  rewrite lookup_omap. destruct (header !! k) as [i|] eqn:Hk; simpl.
  - destruct (lookup_lt_is_Some_2 values i (Hall _ _ Hk)) as [v ->].
    split; by eexists.
  - split; by intros [? ?].
Qed.

(** X11.  The primary fields of a Lapse, Deposit or Forced Quick Sell row
    are read at every index of the header row.  A row with fewer cells than
    the header row ends the run with an index panic, at an index from the
    row's length up; a row with at least as many gets exactly the header
    labels as keys, each with the cell at its column, and the cells beyond
    the header row are not read. *)
Theorem primary_fields_bounds headerVals n l n1 values action :
  row n = Done (n1, inl values) ->
  index values (headerIndex (makeHeader headerVals) "Action") = Done action ->
  action ∈ ["Lapse"; "Deposit"; "Forced Quick Sell"] ->
  (length values < length headerVals ->
     exists i, length values <= i < length headerVals
       /\ step (makeHeader headerVals) n l
          = Panic (IndexOutOfRange i (length values)))
  /\ (length headerVals <= length values ->
      writeRow (map_to_list (makeHeader headerVals)) values (Next l)
      = Done (mkLedger (constructed l)
                (Some (rowFields (makeHeader headerVals) values)))
      /\ dom (rowFields (makeHeader headerVals) values)
         = list_to_set headerVals
      /\ forall k j, lastIndex headerVals k j ->
           rowFields (makeHeader headerVals) values !! k = values !! j).
Proof.
  intros Hrow Hact Hcase. set (header := makeHeader headerVals) in *.
  pose proof (writeRow_header header values (Next l) ∅ eq_refl) as Hw.
  assert (Hent : entries (Next l) = constructed l)
    by (by rewrite Next_constructed).
  rewrite Hent, (right_id_L ∅ (∪)) in Hw. split.
  - intros Hlt.
    destruct Hw as [[_ Hall]|(k & i & Hk & Hge & Hw)].
    { destruct (makeHeader_last headerVals) as [k Hk].
      { intros ->. simpl in Hlt. lia. }
      apply Hall in Hk. lia. }
    exists i. split; [split; [done|by eapply makeHeader_bound]|].
    rewrite (step_row _ _ _ _ _ Hrow), Hact. rsimpl.
    repeat (apply elem_of_cons in Hcase as [->|Hcase]);
      [..|by apply elem_of_nil in Hcase]; unfold dispatch; simpl;
      [unfold caseLapse|unfold caseDeposit|unfold caseDeposit];
      cbv zeta; by rewrite Hw.
  - intros Hle.
    assert (Hall : forall k i, header !! k = Some i -> i < length values).
    { intros k i Hk%makeHeader_bound. lia. }
    destruct Hw as [[Hw _]|(k & i & Hk & Hge & _)];
      [|apply Hall in Hk; lia].
    split; [done|]. split.
    + rewrite rowFields_dom by done. apply makeHeader_dom.
    + intros k j Hlast. unfold rowFields. rewrite lookup_omap.
      assert (Hk : header !! k = Some j).
      { unfold header, makeHeader. apply headerLoop_Some. left. by exists j. }
      by rewrite Hk.
Qed.

Lemma primary_fields_bounds_witness :
  (exists i, 3 <= i < 4
     /\ step stdHeaderMap (onRow [dataRow ["d"; "x"; "Lapse"]]) zeroLedger
        = Panic (IndexOutOfRange i 3))
  /\ dom (rowFields stdHeaderMap ["01/02/2015"; "RSU"; "Deposit"; "GOOG"; "x"])
     = list_to_set ["Date"; "Description"; "Action"; "Symbol"].
Proof.
  split.
  - refine (proj1 (primary_fields_bounds
                     ["Date"; "Description"; "Action"; "Symbol"]
                     (onRow [dataRow ["d"; "x"; "Lapse"]])
                     zeroLedger (onRow [dataRow ["d"; "x"; "Lapse"]])
                     ["d"; "x"; "Lapse"] "Lapse"
                     _ _ _) _).
    + vm_compute. reflexivity.
    + vm_compute. reflexivity.
    + apply elem_of_cons. by left.
    + simpl. lia.
  - refine (proj1 (proj2 (proj2 (primary_fields_bounds
              ["Date"; "Description"; "Action"; "Symbol"]
              (onRow [dataRow ["01/02/2015"; "RSU"; "Deposit"; "GOOG"; "x"]]) zeroLedger
              (onRow [dataRow ["01/02/2015"; "RSU"; "Deposit"; "GOOG"; "x"]])
              ["01/02/2015"; "RSU"; "Deposit"; "GOOG"; "x"] "Deposit"
              _ _ _) _))).
    + vm_compute. reflexivity.
    + vm_compute. reflexivity.
    + apply elem_of_cons. right. apply elem_of_cons. by left.
    + simpl. lia.
Defined.

(** ** Further properties: the run as a whole *)

(** X12.  [main] ends on every document: the loops over siblings never run
    out of steps.  It either writes one array and exits with status 0, or
    aborts with nothing written and exit status 1 (a fatal error) or 2 (a
    runtime panic). *)
Theorem main_outcome doc :
  (exists out, main doc = Done out /\ stdout (main doc) = Some out
               /\ exit_status (main doc) = Some 0)
  \/ (aborts (main doc) /\ stdout (main doc) = None
      /\ (exit_status (main doc) = Some 1 \/ exit_status (main doc) = Some 2)).
Proof.
  pose proof (main_ends doc) as Hends.
  destruct (main doc) as [out|f|p|]; [left|right|right|done].
  - by exists out.
  - split; [left; by exists f|]. split; [done|by left].
  - split; [right; by exists p|]. split; [done|by right].
Qed.

(** X13.  A Journal row takes the [tr] after it as its details row without
    reading it, and a Forced Disbursement row takes none; neither touches
    the ledger.  So after a Journal row the loop goes on from the second
    [tr] after it, whatever the first one holds, and after a Forced
    Disbursement row from the next [tr]. *)
Theorem journal_skips_details header n l n1 values action :
  wf n -> Ok n = true -> row n = Done (n1, inl values) ->
  index values (headerIndex header "Action") = Done action ->
  (action = "Journal" ->
     step header n l = Done (Sibling "tr" n, l)
     /\ rows header n l = rows header (Sibling "tr" (Sibling "tr" n)) l)
  /\ (action = "Forced Disbursement" ->
      step header n l = Done (n, l)
      /\ rows header n l = rows header (Sibling "tr" n) l).
Proof.
  intros Hwf Hok Hrow Hact.
  destruct (row_restores n Hwf) as [r Hr]. rewrite Hr in Hrow.
  injection Hrow as <- ->.
  pose proof (step_row header n n l values Hr) as Hstep.
  rewrite Hact in Hstep. cbn [mbind result_bind] in Hstep.
  split; intros ->; unfold dispatch in Hstep; simpl in Hstep;
    (split; [done|]); by rewrite rows_unfold, Hstep.
Qed.

Lemma journal_skips_details_witness :
  rows stdHeaderMap (onRow journalRows) zeroLedger
  = rows stdHeaderMap (Sibling "tr" (Sibling "tr" (onRow journalRows)))
      zeroLedger
  /\ rows stdHeaderMap (Sibling "tr" (Sibling "tr" (onRow journalRows)))
       zeroLedger
     = rows stdHeaderMap
         (Sibling "tr" (Sibling "tr" (Sibling "tr" (onRow journalRows))))
         zeroLedger.
Proof.
  split.
  - refine (proj2 (proj1 (journal_skips_details stdHeaderMap
              (onRow journalRows) zeroLedger (onRow journalRows)
              ["01/02/2015"; "x"; "Journal"; "GOOG"] "Journal"
              _ eq_refl _ _) eq_refl)).
    + split; [done|exact I].
    + vm_compute. reflexivity.
    + vm_compute. reflexivity.
  - refine (proj2 (proj2 (journal_skips_details stdHeaderMap
              (Sibling "tr" (Sibling "tr" (onRow journalRows))) zeroLedger
              (Sibling "tr" (Sibling "tr" (onRow journalRows)))
              ["01/04/2015"; "z"; "Forced Disbursement"; "GOOG"]
              "Forced Disbursement" _ eq_refl _ _) eq_refl)).
    + split; [done|exact I].
    + vm_compute. reflexivity.
    + vm_compute. reflexivity.
Defined.

(** ** Further properties: the earlier snapshot *)

Lemma Earlier_rowLoop fuel n values :
  Earlier.rowLoop fuel n values
  = '(n1, r) ← rowLoop fuel n values; Done (n1, flagged r).
Proof.
  revert n values. induction fuel as [|fuel IH]; intros n values;
    cbn [Earlier.rowLoop rowLoop]; (destruct (Ok n); [|done]); [done|].
  destruct (Child "label" (Push n)) as [n1| | |]; rsimpl; try done.
  unfold Err, Ok. destruct (err n1); cbn [negb].
  - by destruct (Pop n1).
  - destruct (Pop n1) as [n2| | |]; rsimpl; [apply IH|done..].
Qed.

Lemma Earlier_row_flagged n :
  Earlier.row n = '(n1, r) ← row n; Done (n1, flagged r).
Proof.
  unfold Earlier.row, row.
  destruct (Child "td" (Push n)) as [n1| | |]; rsimpl; try done.
  rewrite Earlier_rowLoop.
  destruct (rowLoop (fuelOf n1) n1 []) as [[n2 r]| | |]; rsimpl; try done.
  by destruct (Pop n2).
Qed.

(** X14.  The two snapshots of [row] accept the same rows and collect the
    same values: the earlier one returns the flag true with the values
    where the later one returns the values and no error, and the flag
    false with no values where the later one returns an error; they leave
    the same cursor and fail alike. *)
Theorem row_versions_agree n :
  Earlier.row n = '(n1, r) ← row n; Done (n1, flagged r).
Proof. apply Earlier_row_flagged. Qed.

Lemma Earlier_headerCell_spec m headers :
  wf m -> err m = None ->
  Earlier.headerCell m headers = Done (m, headers ++ [headerLabel (node m)]).
Proof. exact (headerCell_spec m headers). Qed.

Lemma ledger_eta l m0 : e l = Some m0 -> l = mkLedger (entries l) (Some m0).
Proof. destruct l. simpl. by intros ->. Qed.

Lemma Earlier_Text_ok n : err n = None -> Earlier.Text n = ptrText (node n).
Proof. unfold Earlier.Text. by intros ->. Qed.

(** The loop that writes the cells of the sub-row under the headers from
    index [i] on. *)
Lemma Earlier_writeLoop headers fuel n l i m0 :
  wf n -> (Ok n = true -> length (next n) < fuel) ->
  e l = Some m0 -> i <= length headers ->
  if decide (i + length (cursorCells "td" n) <= length headers) then
    exists n1,
      forOk fuel "td" (Earlier.writeCell headers) n (l, i)
      = Done (n1, (mkLedger (entries l)
                     (Some (positional (drop i headers)
                              (cursorCells "td" n) m0)),
                   i + length (cursorCells "td" n)))
      /\ stack n1 = stack n
  else
    forOk fuel "td" (Earlier.writeCell headers) n (l, i)
    = Panic (IndexOutOfRange (length headers) (length headers)).
Proof.
  revert n l i m0. induction fuel as [|fuel IH]; intros n l i m0 Hwf Hlen He Hi.
  { unfold cursorCells. destruct (Ok n) eqn:Hok; [specialize (Hlen eq_refl); lia|].
    simpl. rewrite decide_True by lia. exists n. rewrite Hok.
    unfold positional. rewrite zip_with_nil_r. simpl.
    rewrite Nat.add_0_r. by rewrite <- ledger_eta. }
  cbn [forOk]. unfold cursorCells. destruct (Ok n) eqn:Hok; cycle 1.
  { simpl. rewrite decide_True by lia. exists n.
    unfold positional. rewrite zip_with_nil_r. simpl.
    rewrite Nat.add_0_r. by rewrite <- ledger_eta. }
  specialize (Hlen eq_refl). apply Ok_true in Hok.
  cbn [length]. unfold Earlier.writeCell.
  destruct (index_cases headers i) as [(h & Hh & ->)|[Hh ->]]; cycle 1.
  { apply lookup_ge_None in Hh. rewrite decide_False by lia. rsimpl.
    by replace i with (length headers) by lia. }
  rsimpl. rewrite (Write_Some _ _ _ _ He). rsimpl.
  rewrite Earlier_Text_ok by done.
  pose proof (lookup_lt_Some _ _ _ Hh) as Hlt.
  specialize (IH (Sibling "td" n)
                (mkLedger (entries l) (Some (<[h:=TrimSpace (ptrText (node n))]> m0)))
                (S i) (<[h:=TrimSpace (ptrText (node n))]> m0)).
  rewrite cursorCells_Sibling in IH by done.
  assert (Hlen1 : Ok (Sibling "td" n) = true ->
                  length (next (Sibling "td" n)) < fuel).
  { intros Hok1. apply Ok_true in Hok1.
    pose proof (Sibling_next_length _ _ Hok Hok1). lia. }
  specialize (IH (wf_Sibling "td" n Hwf) Hlen1 eq_refl ltac:(lia)).
  destruct (decide (S i + length (matches "td" (next n)) <= length headers))
    as [Hle|Hgt].
  - rewrite decide_True by lia. destruct IH as (n1 & IH & Hst).
    exists n1. rewrite Hst, stack_Sibling. split; [|done].
    etransitivity; [exact IH|].
    cbn [entries]. rewrite (drop_S _ _ _ Hh). unfold positional. simpl.
    do 3 f_equal. lia.
  - rewrite decide_False by lia. exact IH.
Qed.

Lemma Child_after_Sibling n :
  wf n -> err n = None ->
  exists c,
    Child "td" (Sibling "tr" n) = Done c /\ stack c = stack n /\ wf c
    /\ cursorCells "td" c
       = default [] (rowCells <$> matches "tr" (next n) !! 0).
Proof.
  intros Hwf He. destruct (scan "tr" (next n)) as [c0|] eqn:Hs.
  - rewrite (Sibling_found _ _ _ He Hs), (matches_scan _ _ _ Hs).
    destruct (Child_cells "td" (mkNode c0 (tail c0) None (stack n)))
      as (c & -> & Hst & Hwfc & Hcells); [|done|].
    { apply wf_intro; simpl; [|by apply wf_stack].
      intros _ ->. by apply scan_Some in Hs as (? & ? & ? & _ & ? & _). }
    by exists c.
  - rewrite (Sibling_missing _ _ He Hs), (matches_scan_None _ _ Hs).
    eexists. split; [by eapply Child_err|]. split; [done|]. split; [|done].
    apply wf_intro; simpl; [done|by apply wf_stack].
Qed.

(** X15.  The earlier [more] returns the cursor it was given.  When the
    descent to the table body fails it returns that error and leaves the
    ledger alone.  Otherwise it never returns an error: it writes the
    cells of the second [tr] of the table body under the labels of the
    first, position by position, and those alone; with no second row, or
    no row at all, it writes nothing; and a sub-row with more cells than
    the header row has labels ends the run with an index panic. *)
Theorem earlier_more_positional n l m0 tb :
  wf n -> e l = Some m0 -> detailsTable (Push n) = Done tb ->
  match err tb with
  | Some e0 => Earlier.more n l = Done (n, l, Some e0)
  | None =>
      let trs := matches "tr" (kids (node tb)) in
      (length (firstCells trs) <= length (firstHeaders trs) ->
         Earlier.more n l
         = Done (n, mkLedger (entries l)
                      (Some (positional (firstHeaders trs) (firstCells trs) m0)),
                 None))
      /\ (length (firstHeaders trs) < length (firstCells trs) ->
          Earlier.more n l
          = Panic (IndexOutOfRange (length (firstHeaders trs))
                     (length (firstHeaders trs))))
  end.
Proof.
  intros Hwf He Htab.
  destruct (detailsTable_Done (Push n) (wf_Push n Hwf))
    as (tb' & Htab' & Hst & Hwftb).
  rewrite Htab in Htab'. injection Htab' as <-. cbn [stack Push] in Hst.
  unfold Earlier.more. rewrite Htab. rsimpl. unfold Earlier.Error.
  destruct (err tb) as [e0|] eqn:Hetb.
  { by rewrite (Pop_stack tb n). }
  cbv zeta.
  destruct (Child_cells "tr" tb Hwftb Hetb) as (hdr & -> & Hsth & Hwfh & Hcells).
  rsimpl. rewrite <- Hcells. unfold cursorCells, Ok.
  destruct (err hdr) as [e1|] eqn:Heh.
  - rewrite (Child_err "td" (Push hdr) e1) by done. rsimpl.
    rewrite forOk_error by (unfold Ok; simpl; by rewrite Heh). rsimpl.
    rewrite (Pop_stack (Push hdr) hdr) by done. rsimpl.
    rewrite (Sibling_err "tr" hdr e1), (Child_err "td" hdr e1) by done. rsimpl.
    rewrite forOk_error by (unfold Ok; by rewrite Heh). rsimpl.
    rewrite (Pop_stack hdr n) by (by rewrite Hsth). rsimpl.
    split; [intros _|simpl; lia]. cbn [fst]. unfold positional. simpl.
    by rewrite <- ledger_eta.
  - destruct (Child_cells "td" (Push hdr)) as (p1 & -> & Hsp & Hwfp & Hcells1);
      [by apply wf_Push|done|]. rsimpl.
    destruct (forOk_fold "td" Earlier.headerCell
                (fun p hs => hs ++ [headerLabel p])
                Earlier_headerCell_spec (fuelOf p1) p1 [] Hwfp)
      as (p2 & -> & Hsp2); [unfold fuelOf; lia|]. rsimpl.
    rewrite (Pop_stack p2 hdr) by (by rewrite Hsp2, Hsp). rsimpl.
    rewrite Hcells1, foldl_snoc_map. cbn [node Push app].
    change (headerLabel <$> matches "td" (kids (node hdr)))
      with (rawHeaders (node hdr)).
    destruct (Child_after_Sibling hdr Hwfh Heh)
      as (c & -> & Hstc & Hwfc & Hcc). rsimpl.
    change (firstHeaders (node hdr :: matches "tr" (next hdr)))
      with (rawHeaders (node hdr)).
    change (firstCells (node hdr :: matches "tr" (next hdr)))
      with (default [] (rowCells <$> matches "tr" (next hdr) !! 0)).
    rewrite <- Hcc.
    pose proof (Earlier_writeLoop (rawHeaders (node hdr)) (fuelOf c) c l 0 m0
                  Hwfc) as Hloop.
    assert (Hfuel : Ok c = true -> length (next c) < fuelOf c)
      by (unfold fuelOf; lia).
    specialize (Hloop Hfuel He ltac:(lia)). cbn [Nat.add drop] in Hloop.
    split; intros Hlen.
    + rewrite decide_True in Hloop by done.
      destruct Hloop as (n1 & -> & Hst1). rsimpl.
      rewrite (Pop_stack n1 n) by (by rewrite Hst1, Hstc, Hsth). by rsimpl.
    + rewrite decide_False in Hloop by lia. by rewrite Hloop.
Qed.

Lemma earlier_more_positional_witness :
  Earlier.more (Sibling "tr" (onRow depositRows)) (Next zeroLedger)
  = Done (Sibling "tr" (onRow depositRows),
          mkLedger [] (Some (list_to_map [("Shares", "10"); ("Price", "5.00");
                                          ("", "x")])),
          None)
  /\ Earlier.more (onRow wideDetailsRows) (Next zeroLedger)
     = Panic (IndexOutOfRange 1 1).
Proof.
  assert (Hwf1 : wf (Sibling "tr" (onRow depositRows))) by (split; [done|exact I]).
  assert (Hwf2 : wf (onRow wideDetailsRows)) by (split; [done|exact I]).
  split.
  - assert (H := proj1 (earlier_more_positional
                          (Sibling "tr" (onRow depositRows)) (Next zeroLedger)
                          ∅ (tableOf (Sibling "tr" (onRow depositRows)))
                          Hwf1 eq_refl eq_refl)).
    etransitivity; [apply H; vm_compute; lia|]. vm_compute. reflexivity.
  - assert (H := proj2 (earlier_more_positional
                          (onRow wideDetailsRows) (Next zeroLedger)
                          ∅ (tableOf (onRow wideDetailsRows))
                          Hwf2 eq_refl eq_refl)).
    etransitivity; [apply H; vm_compute; lia|]. vm_compute. reflexivity.
Defined.

Lemma actionLoop_spec i header action :
  (Earlier.actionLoop i header action = action /\ "Action" ∉ header)
  \/ exists p, Earlier.actionLoop i header action = Z.of_nat (i + p)
               /\ lastIndex header "Action" p.
Proof.
  revert i action. induction header as [|h header IH]; intros i action.
  { left. split; [done|apply not_elem_of_nil]. }
  cbn [Earlier.actionLoop].
  destruct (String.eqb_spec h "Action") as [->|Hne].
  - right. destruct (IH (S i) (Z.of_nat i)) as [[-> Hnot]|(p & -> & Hp & Hlast)].
    + exists 0. rewrite Nat.add_0_r. split; [done|]. split; [done|].
      intros [|q] Hq; [lia|]. simpl. intros Hq'. apply Hnot.
      by eapply list_elem_of_lookup_2.
    + exists (S p). split; [f_equal; lia|]. split; [done|].
      intros [|q] Hq; [lia|]. simpl. apply Hlast. lia.
  - destruct (IH (S i) action) as [[-> Hnot]|(p & -> & Hp & Hlast)].
    + left. split; [done|]. apply not_elem_of_cons. split; [congruence|done].
    + right. exists (S p). split; [f_equal; lia|]. split; [done|].
      intros [|q] Hq; [lia|]. simpl. apply Hlast. lia.
Qed.

Lemma tableBodyChecked_outcome x rest :
  (exists n, tableBodyChecked (x :: rest) = Done n /\ wf n)
  \/ exists f, tableBodyChecked (x :: rest) = Fatal f.
Proof.
  unfold tableBodyChecked.
  set (n0 := mkNode (x :: rest) (x :: rest) None None).
  assert (Hwf0 : wf n0) by done.
  destruct (Child_Done "table" n0 Hwf0) as (n1 & -> & _ & Hwf1). rsimpl.
  destruct (Child_Done "tbody" n1 Hwf1) as (n2 & -> & _ & Hwf2). rsimpl.
  destruct (Child_Done "tr" n2 Hwf2) as (n3 & -> & _ & Hwf3). rsimpl.
  destruct (Child_Done "td" (Sibling "tr" n3)) as (n4 & -> & _ & Hwf4);
    [by apply wf_Sibling|]. rsimpl.
  destruct (Child_Done "table" n4 Hwf4) as (n5 & -> & _ & Hwf5). rsimpl.
  destruct (Child_Done "tbody" n5 Hwf5) as (n6 & -> & _ & Hwf6). rsimpl.
  unfold Err. destruct (err n6) eqn:He; [right; by eexists|].
  destruct (node n6) as [|y rest'] eqn:Hn; [by apply wf_node in Hn|].
  destruct (negb _); [right; by eexists|].
  destruct (Child_Done "tr" n6 Hwf6) as (n7 & -> & _ & Hwf7).
  left. by exists n7.
Qed.

(** X16.  The earlier [main] reaches its loop only with an Action column:
    up to there it never panics, every failure being a fatal error, and
    when it goes on the cursor holds no error, the header row is what
    [row] read from it, and the Action index is the last index of the
    label Action in it.  A header row without that label ends the run with
    the fatal error of the missing Action header. *)
Theorem earlier_start_checked doc :
  match Earlier.start doc with
  | Done (header, action, n) =>
      (0 <= action)%Z /\ lastIndex header "Action" (Z.to_nat action)
      /\ wf n /\ err n = None /\ row n = Done (n, inl header)
  | Fatal _ => True
  | Panic _ | Timeout => False
  end
  /\ (forall root n header,
        findHistory doc [] = Some root -> tableBodyChecked root = Done n ->
        row n = Done (n, inl header) -> "Action" ∉ header ->
        Earlier.start doc = Fatal (FatalErr Earlier.noActionHeader)).
Proof.
  split.
  - unfold Earlier.start. pose proof (findHistory_find doc []) as Hfind.
    destruct (findHistory doc []) as [root|]; [|done].
    destruct Hfind as (x & rest & -> & _).
    destruct (tableBodyChecked_outcome x rest) as [(n & -> & Hwf)|[f ->]];
      [|done]. rsimpl.
    rewrite Earlier_row_flagged. destruct (row_restores n Hwf) as [r Hr].
    rewrite Hr. rsimpl. destruct r as [header|e0]; [|done]. cbn [flagged fst snd negb].
    cbv zeta.
    destruct (actionLoop_spec 0 header (-1)) as [[-> _]|(p & -> & Hp)]; [done|].
    cbn [Nat.add]. destruct (Z.ltb_spec (Z.of_nat p) 0) as [Hlt|Hge]; [lia|].
    split; [done|]. rewrite Nat2Z.id. split; [done|]. split; [done|].
    split; [|done]. destruct (err n) as [e0|] eqn:He; [|done].
    rewrite (row_on_error n e0 He) in Hr. injection Hr as <-.
    by destruct Hp as [Hp _].
  - intros root n header Hroot Htab Hrow Hnot. unfold Earlier.start.
    rewrite Hroot, Htab. rsimpl. rewrite Earlier_row_flagged, Hrow. rsimpl.
    cbn [flagged fst snd negb]. cbv zeta.
    destruct (actionLoop_spec 0 header (-1)) as [[-> _]|(p & _ & Hp & _)];
      [done|].
    exfalso. apply Hnot. by eapply list_elem_of_lookup_2.
Qed.

Lemma earlier_start_checked_witness :
  Earlier.start noActionPage = Fatal (FatalErr Earlier.noActionHeader).
Proof.
  eapply (proj2 (earlier_start_checked noActionPage) _ _
            ["Date"; "Type"; "Symbol"]).
  - reflexivity.
  - reflexivity.
  - vm_compute. reflexivity.
  - rewrite !not_elem_of_cons. repeat split; [done..|apply not_elem_of_nil].
Defined.

Lemma Earlier_writeHeader i header values l m0 :
  e l = Some m0 -> i <= length values ->
  if decide (i + length header <= length values) then
    Earlier.writeHeader i header values l
    = Done (mkLedger (entries l)
              (Some (foldl (fun (m : Entry) (hv : string * string) =>
                              <[hv.1:=hv.2]> m) m0
                       (zip header (drop i values)))))
  else
    Earlier.writeHeader i header values l
    = Panic (IndexOutOfRange (length values) (length values)).
Proof.
  revert i l m0. induction header as [|h header IH]; intros i l m0 He Hi.
  { rewrite decide_True by (simpl; lia). simpl. by rewrite <- ledger_eta. }
  cbn [Earlier.writeHeader length].
  destruct (index_cases values i) as [(v & Hv & ->)|[Hv ->]]; cycle 1.
  { apply lookup_ge_None in Hv. rewrite decide_False by lia. rsimpl.
    by replace i with (length values) by lia. }
  rsimpl. rewrite (Write_Some _ _ _ _ He). rsimpl.
  pose proof (lookup_lt_Some _ _ _ Hv) as Hlt.
  specialize (IH (S i) (mkLedger (entries l) (Some (<[h:=v]> m0)))
                (<[h:=v]> m0) eq_refl ltac:(lia)).
  destruct (decide (S i + length header <= length values)) as [Hle|Hgt].
  - rewrite decide_True by lia. rewrite IH. cbn [entries].
    by rewrite (drop_S _ _ _ Hv).
  - rewrite decide_False by lia. exact IH.
Qed.

Lemma positional_rowFields i header values (hm : gmap string nat) :
  i + length header <= length values ->
  foldl (fun (m : Entry) (hv : string * string) => <[hv.1:=hv.2]> m)
    (omap (fun j => values !! j) hm) (zip header (drop i values))
  = omap (fun j => values !! j) (headerLoop i header hm).
Proof.
  revert i hm. induction header as [|h header IH]; intros i hm Hle; [done|].
  simpl in Hle. destruct (lookup_lt_is_Some_2 values i) as [v Hv]; [lia|].
  rewrite (drop_S _ _ _ Hv). cbn [zip_with foldl headerLoop fst snd].
  rewrite <- (omap_insert_Some _ _ _ i v) by done. apply IH. lia.
Qed.

(** X17.  The earlier snapshot writes the primary fields position by
    position.  A row with fewer cells than the header row ends the run
    with an index panic at the row's length; a row with at least as many
    gets, as in the later snapshot, the field of each header label at the
    label's last column: the two snapshots write the same entry. *)
Theorem earlier_primary_fields header values n l :
  (length values < length header ->
     Earlier.caseDeposit header values n l
     = Panic (IndexOutOfRange (length values) (length values)))
  /\ (length header <= length values ->
      Earlier.writeHeader 0 header values (Next l)
      = Done (mkLedger (constructed l)
                (Some (rowFields (makeHeader header) values)))
      /\ writeRow (map_to_list (makeHeader header)) values (Next l)
         = Earlier.writeHeader 0 header values (Next l)).
Proof.
  pose proof (Earlier_writeHeader 0 header values (Next l) ∅ eq_refl
                ltac:(lia)) as Hw.
  assert (Hent : entries (Next l) = constructed l)
    by (by rewrite Next_constructed).
  rewrite Hent in Hw. cbn [Nat.add drop] in Hw. split; intros Hlen.
  - rewrite decide_False in Hw by lia. unfold Earlier.caseDeposit. cbv zeta.
    by rewrite Hw.
  - rewrite decide_True in Hw by done.
    pose proof (positional_rowFields 0 header values ∅ ltac:(simpl; lia))
      as Hpos.
    rewrite omap_empty in Hpos. cbn [drop] in Hpos. rewrite Hpos in Hw.
    split; [exact Hw|]. rewrite Hw.
    destruct (writeRow_header (makeHeader header) values (Next l) ∅ eq_refl)
      as [[-> _]|(k & i & Hk & Hge & _)].
    + by rewrite Hent, (right_id_L ∅ (∪)).
    + apply makeHeader_bound in Hk. lia.
Qed.

Lemma earlier_primary_fields_witness :
  Earlier.caseDeposit ["Date"; "Description"; "Action"; "Symbol"]
    ["01/02/2015"; "RSU"; "Deposit"] (onRow depositRows) zeroLedger
  = Panic (IndexOutOfRange 3 3)
  /\ writeRow (map_to_list stdHeaderMap)
       ["01/02/2015"; "RSU"; "Deposit"; "GOOG"] (Next zeroLedger)
     = Earlier.writeHeader 0 ["Date"; "Description"; "Action"; "Symbol"]
         ["01/02/2015"; "RSU"; "Deposit"; "GOOG"] (Next zeroLedger).
Proof.
  split.
  - refine (proj1 (earlier_primary_fields
                     ["Date"; "Description"; "Action"; "Symbol"]
                     ["01/02/2015"; "RSU"; "Deposit"] (onRow depositRows)
                     zeroLedger) _).
    simpl. lia.
  - refine (proj2 (proj2 (earlier_primary_fields
                     ["Date"; "Description"; "Action"; "Symbol"]
                     ["01/02/2015"; "RSU"; "Deposit"; "GOOG"]
                     (onRow depositRows) zeroLedger) _)).
    simpl. lia.
Defined.

(** X18.  The two snapshots descend to the table body alike and differ
    only in when they consult the error.  Where the later one reaches the
    first row, so does the earlier one, with the same cursor and no error;
    where the earlier one reaches it without error, so does the later one.
    And the earlier one, consulting the error before it reads the node,
    never panics on the way from an anchor. *)
Theorem descent_versions root :
  (forall n, tableBody root = Done n ->
             tableBodyChecked root = Done n /\ err n = None)
  /\ (forall n, tableBodyChecked root = Done n -> err n = None ->
                tableBody root = Done n)
  /\ (root <> [] -> forall p, tableBodyChecked root <> Panic p).
Proof.
  split; [|split].
  - intros n. unfold tableBody, tableBodyChecked.
    destruct (Child "table" _) as [n1| | |]; rsimpl; try done.
    destruct (Child "tbody" n1) as [n2| | |]; rsimpl; try done.
    destruct (Child "tr" n2) as [n3| | |]; rsimpl; try done.
    destruct (Child "td" _) as [n4| | |]; rsimpl; try done.
    destruct (Child "table" n4) as [n5| | |]; rsimpl; try done.
    destruct (Child "tbody" n5) as [n6| | |]; rsimpl; try done.
    destruct (node n6) as [|x rest]; [done|]. destruct (negb _); [done|].
    unfold Err. destruct (err n6) as [e0|] eqn:He6.
    { rewrite (Child_err "tr" n6 e0 He6). rsimpl. by rewrite He6. }
    destruct (Child "tr" n6) as [n7| | |]; rsimpl; try done.
    destruct (err n7) eqn:He7; [done|]. by intros [= <-].
  - intros n. unfold tableBody, tableBodyChecked.
    destruct (Child "table" _) as [n1| | |]; rsimpl; try done.
    destruct (Child "tbody" n1) as [n2| | |]; rsimpl; try done.
    destruct (Child "tr" n2) as [n3| | |]; rsimpl; try done.
    destruct (Child "td" _) as [n4| | |]; rsimpl; try done.
    destruct (Child "table" n4) as [n5| | |]; rsimpl; try done.
    destruct (Child "tbody" n5) as [n6| | |]; rsimpl; try done.
    unfold Err. destruct (err n6); [done|].
    destruct (node n6) as [|x rest]; [done|]. destruct (negb _); [done|].
    intros -> He. rsimpl. by rewrite He.
  - intros Hne p. destruct root as [|x rest]; [done|].
    by destruct (tableBodyChecked_outcome x rest) as [(n & -> & _)|[f ->]].
Qed.

Lemma descent_versions_witness :
  tableBodyChecked [anchor []] <> Panic NilDereference
  /\ exists n, tableBodyChecked
                 (kids [el "body"
                          [anchor [el "table"
                                     [el "tbody"
                                        [el "tr" [];
                                         el "tr" [el "td" [el "table"
                                           [el "tbody" [stdHeader]]]]]]]]])
               = Done n /\ err n = None.
Proof.
  split.
  - refine (proj2 (proj2 (descent_versions [anchor []])) _ NilDereference).
    done.
  - eexists.
    refine (proj1 (descent_versions _) _ _). vm_compute. reflexivity.
Defined.
